(** * GPX/KML to GTFS conversion: the route pipeline of sikka-api

    A shallow embedding of the three scripts under [convert gpx to gtfs]
    ([main.py], [multiple_gpx.py], [multiple_kml.py]) and the properties
    their specification states about resampling, travel times, the stop
    registry, the transfer search and the per-run orchestration.

    Numbers.  Python floats are modelled by exact rationals ([Q]); rounding
    error is therefore outside the model, and two rationals are compared
    with [==] where the code compares floats.  Python ints that count or
    number things (identities, positions) are [nat]; ints obtained by
    flooring a float are [Z].

    Libraries the scripts call.  [geopy.distance.geodesic] and the planar
    vertex distance of GEOS are parameters of the development (section
    variables); [shapely]'s [LineString.length] and
    [LineString.interpolate] and [scipy]'s [KDTree.query_ball_point] are
    written out from their documented behaviour on top of these. *)

From Stdlib Require Import QArith Qround Qabs ZArith Lia Lqa.
From stdpp Require Import gmap strings list pretty.

Close Scope Q_scope.

(** ** Python exceptions and the error monad *)

Inductive exn : Type :=
  | ZeroDivisionError
  | ValueError
  | IndexError
  | ParseError.

Inductive result (A : Type) : Type :=
  | Ok (a : A)
  | Raise (e : exn).
Arguments Ok {A} a.
Arguments Raise {A} e.

Global Instance result_ret : MRet result := λ A a, Ok a.
Global Instance result_bind : MBind result := λ A B f m,
  match m with
  | Ok a => f a
  | Raise e => Raise e
  end.

Definition is_ok {A} (r : result A) : bool :=
  match r with Ok _ => true | Raise _ => false end.

(** Float division: Python raises on a zero divisor, whatever the dividend. *)
Definition pydiv (a b : Q) : result Q :=
  if Qeq_bool b 0 then Raise ZeroDivisionError else Ok (a / b)%Q.

(** Float floor division [a // b], then [int(...)]. *)
Definition pyfloordiv (a b : Q) : result Z :=
  if Qeq_bool b 0 then Raise ZeroDivisionError else Ok (Qfloor (a / b)).

(** Float remainder [a % m] for a positive modulus. *)
Definition pymod (a m : Q) : Q := (a - m * inject_Z (Qfloor (a / m)))%Q.

(** ** Points *)

(** A route point is a [(longitude, latitude)] pair, as the parsers build it. *)
Definition Point : Type := (Q * Q)%type.
Definition lon (p : Point) : Q := fst p.
Definition lat (p : Point) : Q := snd p.

(** [coords[i][::-1]]: the pair turned into [(latitude, longitude)]. *)
Definition reversed (p : Point) : Q * Q := (snd p, fst p).

(** Equality of coordinates as floats compare them. *)
Definition Peq (p q : Q * Q) : Prop := (fst p == fst q)%Q ∧ (snd p == snd q)%Q.

Section Geometry.

(** [geopy.distance.geodesic(a, b).meters] on [(latitude, longitude)] pairs. *)
Variable geodesic : Q * Q → Q * Q → Q.

(** The planar distance of two vertices, as GEOS measures a segment. *)
Variable coord_distance : Point → Point → Q.

(** *** shapely.geometry.LineString *)

Fixpoint line_length_from (total : Q) (pts : list Point) : Q :=
  match pts with
  | p0 :: (p1 :: _) as rest => line_length_from (total + coord_distance p0 p1)%Q rest
  | _ => total
  end.

(** [line.length]. *)
Definition line_length (pts : list Point) : Q := line_length_from 0 pts.

(** The point at fraction [frac] of the segment from [p0] to [p1]. *)
Definition point_along (p0 p1 : Point) (frac : Q) : Point :=
  if Qle_bool frac 0 then p0
  else if Qle_bool 1 frac then p1
  else ((fst p1 - fst p0) * frac + fst p0, (snd p1 - snd p0) * frac + snd p0)%Q.

(** The forward walk of GEOS' length-indexed line: the first segment that
    reaches beyond [d] holds the point; a distance at or past the end of
    the line gives the end vertex. *)
Fixpoint interpolate_from (total : Q) (pts : list Point) (d : Q) : Point :=
  match pts with
  | [] => (0, 0)%Q
  | [p] => p
  | p0 :: (p1 :: _) as rest =>
      let segLen := coord_distance p0 p1 in
      if Qlt_le_dec d (total + segLen)
      then point_along p0 p1 ((d - total) / segLen)%Q
      else interpolate_from (total + segLen)%Q rest d
  end.

(** [line.interpolate(d)]: a negative distance is taken from the end. *)
Definition interpolate (pts : list Point) (d : Q) : Point :=
  let forward := if Qlt_le_dec d 0 then (line_length pts + d)%Q else d in
  if Qle_bool forward 0 then hd (0, 0)%Q pts
  else interpolate_from 0 pts forward.

(** [LineString(points)] rejects a sequence with fewer than two points. *)
Definition LineString (pts : list Point) : result (list Point) :=
  if decide (2 ≤ length pts) then Ok pts else Raise ValueError.

(** *** geodesic_length (all three scripts) *)

Fixpoint geodesic_length_from (total : Q) (coords : list Point) : Q :=
  match coords with
  | p :: (q :: _) as rest =>
      geodesic_length_from (total + geodesic (reversed p) (reversed q))%Q rest
  | _ => total
  end.

Definition geodesic_length (coords : list Point) : Q :=
  geodesic_length_from 0 coords.

(** *** Resampling *)

(** The loop [for i in range(num_stops + 1)] of both flows. *)
Definition interpolated_stops (line : list Point) (dist_step : Q) (num_stops : Z)
  : list Point :=
  (λ i, interpolate line (dist_step * inject_Z i)%Q) <$> seqZ 0 (num_stops + 1).

(** [generate_stops_and_times] of multiple_gpx.py and multiple_kml.py. *)
Definition generate_stops_and_times (points : list Point) (stop_dist : Q)
  : result (list Point) :=
  line ← LineString points;
  let total_meters := geodesic_length points in
  q ← pyfloordiv total_meters stop_dist;
  let num_stops := Z.max q 1 in
  dist_step ← pydiv (line_length line) (inject_Z num_stops);
  mret (interpolated_stops line dist_step num_stops).

(** Lines 34-49 of main.py: the same computation without the clamp. *)
Definition main_resample (points : list Point) (stop_dist : Q)
  : result (list Point) :=
  line ← LineString points;
  let total_meters := geodesic_length points in
  num_stops ← pyfloordiv total_meters stop_dist;
  dist_step ← pydiv (line_length line) (inject_Z num_stops);
  mret (interpolated_stops line dist_step num_stops).

(** *** Travel times *)

(** The loop of [calculate_travel_times]; [times] is the list built so far
    and [times[-1]] its last element. *)
Fixpoint travel_times_loop (speed_ms : Q) (stops_coords : list Point)
    (times : list Q) : result (list Q) :=
  match stops_coords with
  | p :: (q :: _) as rest =>
      let distance := geodesic (snd p, fst p) (snd q, fst q) in
      travel_time ← pydiv distance speed_ms;
      travel_times_loop speed_ms rest (times ++ [(List.last times 0 + travel_time)%Q])
  | _ => Ok times
  end.

Definition calculate_travel_times (stops_coords : list Point) (speed_kmh : Q)
  : result (list Q) :=
  let speed_ms := (speed_kmh * 1000 / 3600)%Q in
  travel_times_loop speed_ms stops_coords [0%Q].

End Geometry.

(** ** The stop registry *)

(** A row of [all_stops]. *)
Record Stop : Type := mkStop {
  stop_id : nat;
  stop_name : string;
  stop_lat : Q;
  stop_lon : Q
}.

(** Python's [round(x, 5)] on a float: the nearest multiple of 10^-5, ties
    to even.  The rounded float is represented by its count of 10^-5 units,
    so two rounded floats are equal exactly when these integers are. *)
Definition round_half_even (x : Q) : Z :=
  let f := Qfloor x in
  match ((x - inject_Z f) ?= (1 # 2))%Q with
  | Lt => f
  | Gt => (f + 1)%Z
  | Eq => if Z.even f then f else (f + 1)%Z
  end.

Definition round5 (x : Q) : Z := round_half_even (x * 100000)%Q.

(** [key = (round(coord[1], 5), round(coord[0], 5))]. *)
Definition stop_key (coord : Point) : Z * Z := (round5 (snd coord), round5 (fst coord)).

(** The four globals the interning loop reads and writes. *)
Record Registry : Type := mkRegistry {
  all_stops : list Stop;
  stop_coords : list (Q * Q);
  stop_id_map : gmap (Z * Z) nat;
  stop_counter : nat
}.

Definition empty_registry : Registry :=
  {| all_stops := []; stop_coords := []; stop_id_map := ∅; stop_counter := 1 |}.

(** One turn of [for coord in interpolated_stops]: the identity given to
    [coord] and the registry after it (lines 128-141 of multiple_gpx.py). *)
Definition intern (coord : Point) (reg : Registry) : nat * Registry :=
  let key := stop_key coord in
  match stop_id_map reg !! key with
  | None =>
      let sid := stop_counter reg in
      (sid,
       {| all_stops := all_stops reg ++
            [{| stop_id := sid; stop_name := "Stop " +:+ pretty sid;
                stop_lat := snd coord; stop_lon := fst coord |}];
          stop_coords := stop_coords reg ++ [(snd coord, fst coord)];
          stop_id_map := <[key := sid]> (stop_id_map reg);
          stop_counter := stop_counter reg + 1 |})
  | Some sid => (sid, reg)
  end.

(** The whole loop, with the two per-route lists it appends to. *)
Fixpoint intern_route (coords : list Point) (reg : Registry)
    (route_stops : list nat) (route_stop_coords : list Point)
  : Registry * list nat * list Point :=
  match coords with
  | [] => (reg, route_stops, route_stop_coords)
  | coord :: rest =>
      let '(sid, reg') := intern coord reg in
      intern_route rest reg' (route_stops ++ [sid])
        (route_stop_coords ++ [(fst coord, snd coord)])
  end.

(** The registries a run can reach: the empty one, and any registry after
    one more coordinate has been interned. *)
Inductive reachable : Registry → Prop :=
  | reachable_empty : reachable empty_registry
  | reachable_intern coord reg : reachable reg → reachable (intern coord reg).2.

(** ** Time formatting *)

(** [int(x)] on a float truncates toward zero. *)
Definition pyint (x : Q) : Z := if Qlt_le_dec x 0 then Qceiling x else Qfloor x.

(** The format [{n:02d}]: decimal digits, padded with a zero to width 2. *)
Definition fmt02d (n : Z) : string :=
  let s := pretty n in
  if decide (String.length s < 2) then "0" +:+ s else s.

(** [seconds_to_gtfs_time] of multiple_gpx.py and multiple_kml.py. *)
Definition seconds_to_gtfs_time (seconds : Q) : string :=
  let hours := Qfloor (seconds / 3600) in
  let minutes := Qfloor (pymod seconds 3600 / 60) in
  let seconds := pyint (pymod seconds 60) in
  fmt02d hours +:+ ":" +:+ fmt02d minutes +:+ ":" +:+ fmt02d seconds.

(** [base_start_time = 6 * 3600]. *)
Definition base_start_time : Q := inject_Z (6 * 3600).

(** [str(timedelta(seconds=n))] for an integer [n]: the day count is split
    off and printed in words, the hours within the day are not padded. *)
Definition timedelta_str (n : Z) : string :=
  let days := (n `div` 86400)%Z in
  let secs := (n `mod` 86400)%Z in
  let mm := (secs `div` 60)%Z in
  let ss := (secs `mod` 60)%Z in
  let hh := (mm `div` 60)%Z in
  let mm := (mm `mod` 60)%Z in
  let s := pretty hh +:+ ":" +:+ fmt02d mm +:+ ":" +:+ fmt02d ss in
  if decide (days = 0%Z) then s
  else pretty days +:+ " day" +:+ (if decide (Z.abs days = 1%Z) then "" else "s")
       +:+ ", " +:+ s.

(** A row of stop_times.txt. *)
Record StopTime : Type := mkStopTime {
  trip_id : nat;
  arrival_time : string;
  departure_time : string;
  st_stop_id : nat;
  stop_sequence : nat
}.

(** The stop_times.txt rows of main.py (lines 88-90): trip 1, the time
    string twice, and the position as stop identity and sequence number. *)
Definition main_stop_times (times : list Q) : list StopTime :=
  imap (λ i seconds,
          let hhmmss := timedelta_str (pyint seconds) in
          {| trip_id := 1; arrival_time := hhmmss; departure_time := hhmmss;
             st_stop_id := i + 1; stop_sequence := i + 1 |}) times.

(** The rows appended to [all_stop_times] for one route (lines 150-161 of
    multiple_gpx.py); [zip] stops at the shorter list. *)
Definition route_stop_times (idx : nat) (route_stops : list nat) (travel_times : list Q)
  : list StopTime :=
  imap (λ stop_sequence '(sid, travel_time),
          let arrival_time := (base_start_time + travel_time)%Q in
          let departure_time := arrival_time in
          {| trip_id := idx;
             arrival_time := seconds_to_gtfs_time arrival_time;
             departure_time := seconds_to_gtfs_time departure_time;
             st_stop_id := sid;
             stop_sequence := stop_sequence + 1 |})
       (zip route_stops travel_times).

(** ** The transfer search *)

(** [tree.query_ball_point(x, r)]: the indices of the indexed points within
    Euclidean distance [r] of [x], compared on squares. *)
Definition within (r : Q) (a b : Q * Q) : bool :=
  Qle_bool ((fst a - fst b) * (fst a - fst b) + (snd a - snd b) * (snd a - snd b))
           (r * r).

Definition query_ball_point (data : list (Q * Q)) (x : Q * Q) (r : Q) : list nat :=
  (filter (λ jc, within r jc.2 x = true) (imap (λ j c, (j, c)) data)).*1.

(** [l[i]] on a list: an index past the end raises. *)
Definition py_index {A} (l : list A) (i : nat) : result A :=
  match l !! i with
  | Some a => Ok a
  | None => Raise IndexError
  end.

(** The inner loop [for j in nearby_indices] at query index [i]. *)
Fixpoint transfers_inner (stops : list Stop) (i : nat) (nearby : list nat)
    (transfers : list (nat * nat)) : result (list (nat * nat)) :=
  match nearby with
  | [] => Ok transfers
  | j :: rest =>
      if decide (i ≠ j) then
        si ← py_index stops i;
        sj ← py_index stops j;
        if decide (stop_id si ≠ stop_id sj)
        then transfers_inner stops i rest (transfers ++ [(stop_id si, stop_id sj)])
        else transfers_inner stops i rest transfers
      else transfers_inner stops i rest transfers
  end.

(** The outer loop [for i, (lat1, lon1) in enumerate(stop_coords)]; [todo]
    is what is left of the enumeration. *)
Fixpoint transfers_outer (stops : list Stop) (coords : list (Q * Q))
    (todo : list (nat * (Q * Q))) (transfers : list (nat * nat))
  : result (list (nat * nat)) :=
  match todo with
  | [] => Ok transfers
  | (i, (lat1, lon1)) :: rest =>
      let nearby_indices := query_ball_point coords (lat1, lon1) (3 # 10000) in
      transfers ← transfers_inner stops i nearby_indices transfers;
      transfers_outer stops coords rest transfers
  end.

(** Lines 234-241 of multiple_gpx.py: the list [transfers]. *)
Definition find_transfers (stops : list Stop) (coords : list (Q * Q))
  : result (list (nat * nat)) :=
  if decide (1 < length coords)
  then transfers_outer stops coords (imap (λ i c, (i, c)) coords) []
  else Ok [].

(** [set(transfers)], and the rows written from it: one row per element of
    the set, in the set's own order. *)
Definition transfer_set (transfers : list (nat * nat)) : gset (nat * nat) :=
  list_to_set transfers.

Definition transfer_rows (transfers : list (nat * nat)) : list (nat * nat * nat * nat) :=
  (λ '(from_id, to_id), (from_id, to_id, 0, 60)) <$> elements (transfer_set transfers).

(** ** The per-run state and the route loop *)

(** An entry of [routes_data]. *)
Record RouteData : Type := mkRouteData {
  route_id : nat;
  route_name : string;
  shape_id : nat;
  stops : list nat
}.

(** A row of [all_shapes]. *)
Record ShapeRow : Type := mkShapeRow {
  sh_shape_id : nat;
  shape_pt_lat : Q;
  shape_pt_lon : Q;
  shape_pt_sequence : nat
}.

(** What the scripts print while the routes are processed. *)
Inductive message : Type :=
  | Processing (file : string)
  | FoundPoints (n : nat)
  | WarningNoPoints (file : string)
  | ErrorProcessing (file : string) (e : exn)
  | NoValidRoutes.

(** The module-level variables of multiple_gpx.py and multiple_kml.py, and
    the lines printed so far. *)
Record RunState : Type := mkRunState {
  registry : Registry;
  routes_data : list RouteData;
  all_shapes : list ShapeRow;
  all_stop_times : list StopTime;
  printed : list message
}.

Definition initial_state : RunState :=
  {| registry := empty_registry; routes_data := []; all_shapes := [];
     all_stop_times := []; printed := [] |}.

(** An input file as the loop sees it: its name in the directory listing,
    [os.path.splitext(name)[0]], and what the geometry parser makes of its
    content (the point list, or the exception it raises). *)
Record InputFile : Type := mkInputFile {
  filename : string;
  basename : string;
  parsed : result (list Point)
}.

(** Code that mutates the globals and may raise: the state reached when the
    exception is raised is the state the handler continues with. *)
Definition Run (A : Type) : Type := RunState → result A * RunState.

Global Instance run_ret : MRet Run := λ A a st, (Ok a, st).
Global Instance run_bind : MBind Run := λ A B f m st,
  match m st with
  | (Ok a, st') => f a st'
  | (Raise e, st') => (Raise e, st')
  end.

Definition lift {A} (r : result A) : Run A := λ st, (r, st).
Definition modify (f : RunState → RunState) : Run () := λ st, (Ok (), f st).
Definition print (m : message) : Run () :=
  modify (λ st, {| registry := registry st; routes_data := routes_data st;
                   all_shapes := all_shapes st; all_stop_times := all_stop_times st;
                   printed := printed st ++ [m] |}).

(** The interning loop as a step of the route body. *)
Definition intern_stops (interpolated : list Point) : Run (list nat * list Point) :=
  λ st,
    let '(reg, route_stops, route_stop_coords) :=
      intern_route interpolated (registry st) [] [] in
    (Ok (route_stops, route_stop_coords),
     {| registry := reg; routes_data := routes_data st; all_shapes := all_shapes st;
        all_stop_times := all_stop_times st; printed := printed st |}).

Definition extend_stop_times (rows : list StopTime) : Run () :=
  modify (λ st, {| registry := registry st; routes_data := routes_data st;
                   all_shapes := all_shapes st;
                   all_stop_times := all_stop_times st ++ rows;
                   printed := printed st |}).

Definition extend_shapes (rows : list ShapeRow) : Run () :=
  modify (λ st, {| registry := registry st; routes_data := routes_data st;
                   all_shapes := all_shapes st ++ rows;
                   all_stop_times := all_stop_times st;
                   printed := printed st |}).

Definition append_route (r : RouteData) : Run () :=
  modify (λ st, {| registry := registry st; routes_data := routes_data st ++ [r];
                   all_shapes := all_shapes st;
                   all_stop_times := all_stop_times st;
                   printed := printed st |}).

(** The rows of [all_shapes] for one route (lines 164-170). *)
Definition shape_rows (sid : nat) (points : list Point) : list ShapeRow :=
  imap (λ shape_idx coord,
          {| sh_shape_id := sid; shape_pt_lat := snd coord; shape_pt_lon := fst coord;
             shape_pt_sequence := shape_idx + 1 |}) points.

(** The tables written at the end of a multi-route run. *)
Record Feed : Type := mkFeed {
  agency_txt : list (nat * string * string * string);
  stops_txt : list (nat * string * Q * Q);
  routes_txt : list (nat * nat * string * string * nat);
  trips_txt : list (nat * nat * nat * nat);
  stop_times_txt : list (nat * string * string * nat * nat);
  frequencies_txt : list (nat * string * string * Z);
  calendar_txt : list (nat * list nat * string * string);
  shapes_txt : list (nat * Q * Q * nat);
  transfers_txt : list (nat * nat * nat * nat)
}.

(** How a run ends: [sys.exit(code)] before anything is written, an uncaught
    exception, or the archive gtfs.zip holding the tables. *)
Inductive outcome : Type :=
  | Exited (code : nat) (out : list message)
  | Crashed (e : exn) (out : list message)
  | Archive (feed : Feed) (out : list message).

Section Run.

Variable geodesic : Q * Q → Q * Q → Q.
Variable coord_distance : Point → Point → Q.

(** The three values read from the terminal. *)
Variable speed_kmh : Q.
Variable stop_dist : Q.
Variable frequency_headway : Z.

(** The body of the [try] from the resampling on (lines 120-177 of
    multiple_gpx.py, 185-242 of multiple_kml.py). *)
Definition route_body (idx : nat) (file : InputFile) (points : list Point) : Run () :=
  interpolated_stops ←
    lift (generate_stops_and_times geodesic coord_distance points stop_dist);
  let shape_id := idx in
  '(route_stops, route_stop_coords) ← intern_stops interpolated_stops;
  travel_times ← lift (calculate_travel_times geodesic route_stop_coords speed_kmh);
  extend_stop_times (route_stop_times idx route_stops travel_times);;
  extend_shapes (shape_rows shape_id points);;
  append_route {| route_id := idx; route_name := basename file;
                  shape_id := shape_id; stops := route_stops |}.

(** [try: ... except Exception as e: print(...); continue]. *)
Definition try_route (file : InputFile) (body : Run ()) (st : RunState) : RunState :=
  match body st with
  | (Ok _, st') => st'
  | (Raise e, st') => (print (ErrorProcessing (filename file) e) st').2
  end.

(** What multiple_gpx.py runs for one file: the parser is called inside the
    [try], so what it raises is caught with the rest. *)
Definition gpx_body (idx : nat) (file : InputFile) : Run () :=
  print (Processing (filename file));;
  points ← lift (parsed file);
  route_body idx file points.

Definition gpx_route (idx : nat) (file : InputFile) (st : RunState) : RunState :=
  try_route file (gpx_body idx file) st.

(** [process_kml_file] catches what the parser raises and returns []. *)
Definition process_kml_file (file : InputFile) : list Point :=
  match parsed file with
  | Ok points => points
  | Raise _ => []
  end.

(** What multiple_kml.py runs for one file: an empty point list is
    reported and skipped before the resampling. *)
Definition kml_body (idx : nat) (file : InputFile) : Run () :=
  print (Processing (filename file));;
  let points := process_kml_file file in
  if decide (points = []) then print (WarningNoPoints (filename file))
  else
    print (FoundPoints (length points));;
    route_body idx file points.

Definition kml_route (idx : nat) (file : InputFile) (st : RunState) : RunState :=
  try_route file (kml_body idx file) st.

(** Whether a file makes it through parsing, resampling and the travel
    times: the three steps of the body that can raise. *)
Definition resample_file (file : InputFile) : result (list Point) :=
  points ← parsed file;
  generate_stops_and_times geodesic coord_distance points stop_dist.

Definition route_ok (file : InputFile) : bool :=
  is_ok (interpolated ← resample_file file;
         calculate_travel_times geodesic interpolated speed_kmh).

(** [for idx, name in enumerate(files, start=1)]. *)
Fixpoint route_loop (step : nat → InputFile → RunState → RunState)
    (todo : list (nat * InputFile)) (st : RunState) : RunState :=
  match todo with
  | [] => st
  | (idx, file) :: rest => route_loop step rest (step idx file st)
  end.

Definition enumerate1 (files : list InputFile) : list (nat * InputFile) :=
  imap (λ i file, (i + 1, file)) files.

(** The tables after the loop, and the archive made of them. *)
Definition write_feed (st : RunState) : outcome :=
  match find_transfers (all_stops (registry st)) (stop_coords (registry st)) with
  | Raise e => Crashed e (printed st)
  | Ok transfers =>
      Archive
        {| agency_txt :=
             [(1, "Void", "https://abualmun.github.io/portfolio.io/", "Africa/Khartoum")];
           stops_txt :=
             (λ stop, (stop_id stop, stop_name stop, stop_lat stop, stop_lon stop))
               <$> all_stops (registry st);
           routes_txt :=
             (λ route, (route_id route, 1, route_name route, route_name route, 3))
               <$> routes_data st;
           trips_txt :=
             (λ route, (route_id route, 1, route_id route, shape_id route))
               <$> routes_data st;
           stop_times_txt :=
             (λ row, (trip_id row, arrival_time row, departure_time row,
                      st_stop_id row, stop_sequence row)) <$> all_stop_times st;
           frequencies_txt :=
             (λ route, (route_id route, "06:00:00", "22:00:00", frequency_headway))
               <$> routes_data st;
           calendar_txt := [(1, [1; 1; 1; 1; 1; 1; 1], "20250720", "20251231")];
           shapes_txt :=
             (λ shape, (sh_shape_id shape, shape_pt_lat shape, shape_pt_lon shape,
                        shape_pt_sequence shape)) <$> all_shapes st;
           transfers_txt := transfer_rows transfers |}
        (printed st)
  end.

(** multiple_gpx.py from the directory listing to the archive. *)
Definition run_gpx (gpx_files : list InputFile) : outcome :=
  if decide (gpx_files = []) then Exited 1 []
  else write_feed (route_loop gpx_route (enumerate1 gpx_files) initial_state).

(** multiple_kml.py: the same, with the guard on [routes_data]. *)
Definition run_kml (kml_files : list InputFile) : outcome :=
  if decide (kml_files = []) then Exited 1 []
  else
    let st := route_loop kml_route (enumerate1 kml_files) initial_state in
    if decide (routes_data st = []) then Exited 1 (printed st ++ [NoValidRoutes])
    else write_feed st.

End Run.

(** ** The time format of the specification *)

(** Zero-padded [HH:MM:SS] of a whole number of seconds since midnight, the
    hours counted on without wrapping at 24. *)
Definition hhmmss (total : Z) : string :=
  fmt02d (total `div` 3600) +:+ ":" +:+ fmt02d ((total `div` 60) `mod` 60)
    +:+ ":" +:+ fmt02d (total `mod` 60).

(** ** Predicates used in the statements *)


(** What holds of the registry between two interning steps: identities are
    handed out in order from 1, the three containers describe the same
    stops, and the key map is one-to-one onto the stops on record. *)
Record registry_inv (reg : Registry) : Prop := mkRegistryInv {
  inv_counter : stop_counter reg = S (length (all_stops reg));
  inv_ids : stop_id <$> all_stops reg = seq 1 (length (all_stops reg));
  inv_coords : stop_coords reg = (λ s, (stop_lat s, stop_lon s)) <$> all_stops reg;
  inv_range : ∀ k sid, stop_id_map reg !! k = Some sid → 1 ≤ sid < stop_counter reg;
  inv_inj : ∀ k1 k2 sid,
    stop_id_map reg !! k1 = Some sid → stop_id_map reg !! k2 = Some sid → k1 = k2;
  inv_stop : ∀ k sid, stop_id_map reg !! k = Some sid →
    ∃ s, all_stops reg !! (sid - 1) = Some s ∧ stop_id s = sid
         ∧ stop_key (stop_lon s, stop_lat s) = k
}.

(** Two stop identities collide when they belong to two different positions
    of the registry whose coordinates are within the radius of 0.0003
    degrees of each other, and the identities differ. *)
Definition collide (stops : list Stop) (coords : list (Q * Q)) (a b : nat) : Prop :=
  ∃ i j ci cj si sj,
    coords !! i = Some ci ∧ coords !! j = Some cj ∧ within (3 # 10000) cj ci = true
    ∧ i ≠ j ∧ stops !! i = Some si ∧ stops !! j = Some sj
    ∧ stop_id si ≠ stop_id sj ∧ a = stop_id si ∧ b = stop_id sj.

(** What a turn of the route loop does to the three aggregates: it only
    appends, a file that gets through ([ok]) appends exactly one route
    numbered [idx], any other file appends nothing, and appended shape and
    stop-time rows carry [idx]. *)
Definition step_adds (ok : InputFile → bool)
    (step : nat → InputFile → RunState → RunState) : Prop :=
  ∀ idx file st, ∃ new_routes new_shapes new_times,
    routes_data (step idx file st) = routes_data st ++ new_routes
    ∧ all_shapes (step idx file st) = all_shapes st ++ new_shapes
    ∧ all_stop_times (step idx file st) = all_stop_times st ++ new_times
    ∧ (if ok file
       then ∃ sids, new_routes = [{| route_id := idx; route_name := basename file;
                                     shape_id := idx; stops := sids |}]
       else new_routes = [] ∧ new_shapes = [] ∧ new_times = [])
    ∧ Forall (λ row, sh_shape_id row = idx) new_shapes
    ∧ Forall (λ row, trip_id row = idx) new_times
    ∧ (reachable (registry st) → reachable (registry (step idx file st))).

(** The identities of the routes of a finished loop over [files]: they are
    the 1-based positions of the files that got through, in order and
    without repetition; every route has its position also as shape
    identity and the base name of its file as name; and the trip and shape
    identities of the rows are identities of routes. *)
Definition route_identities_hold (ok : InputFile → bool) (files : list InputFile)
    (st : RunState) : Prop :=
  route_id <$> routes_data st
    = (filter (λ p, ok p.2 = true) (enumerate1 files)).*1
  ∧ NoDup (route_id <$> routes_data st)
  ∧ (∀ r, r ∈ routes_data st →
       shape_id r = route_id r ∧ 1 ≤ route_id r
       ∧ ∃ file, files !! (route_id r - 1) = Some file
                 ∧ route_name r = basename file ∧ ok file = true)
  ∧ (∀ row, row ∈ all_stop_times st → trip_id row ∈ route_id <$> routes_data st)
  ∧ (∀ row, row ∈ all_shapes st → sh_shape_id row ∈ route_id <$> routes_data st).

(** ** Sample data *)

(** A distance on coordinate pairs that can be evaluated: the sum of the
    absolute coordinate differences. *)
Definition taxicab (a b : Q * Q) : Q :=
  (Qabs (fst a - fst b) + Qabs (snd a - snd b))%Q.

(** A straight route of length 3 along the first axis. *)
Definition straight3 : list Point := [(0, 0)%Q; (3, 0)%Q].

Definition good_file (name : string) : InputFile :=
  {| filename := name +:+ ".gpx"; basename := name; parsed := Ok straight3 |}.

Definition bad_file (name : string) : InputFile :=
  {| filename := name +:+ ".gpx"; basename := name; parsed := Raise ParseError |}.

(** Two stops one ten-thousandth of a degree apart. *)
Definition near_stops : list Stop :=
  [ {| stop_id := 1; stop_name := "Stop 1"; stop_lat := 0; stop_lon := 0 |};
    {| stop_id := 2; stop_name := "Stop 2"; stop_lat := 1 # 10000; stop_lon := 0 |} ].

Definition near_coords : list (Q * Q) := [(0, 0)%Q; (1 # 10000, 0)%Q].

(** * Properties *)

(** ** Arithmetic of the Python operators *)

Lemma pydiv_nonzero a b : ¬ (b == 0)%Q → pydiv a b = Ok (a / b)%Q.
Proof.
  intros Hb. unfold pydiv.
  destruct (Qeq_bool b 0) eqn:E; [|done].
  by apply Qeq_bool_iff in E.
Qed.

Lemma pydiv_zero a b : (b == 0)%Q → pydiv a b = Raise ZeroDivisionError.
Proof. intros Hb. unfold pydiv. by apply Qeq_bool_iff in Hb as ->. Qed.

Lemma pydiv_raises a b e : pydiv a b = Raise e → e = ZeroDivisionError ∧ (b == 0)%Q.
Proof.
  unfold pydiv. destruct (Qeq_bool b 0) eqn:E; [|done].
  intros [= <-]. split; [done|]. by apply Qeq_bool_iff.
Qed.

Lemma pyfloordiv_nonzero a b : ¬ (b == 0)%Q → pyfloordiv a b = Ok (Qfloor (a / b)).
Proof.
  intros Hb. unfold pyfloordiv.
  destruct (Qeq_bool b 0) eqn:E; [|done].
  by apply Qeq_bool_iff in E.
Qed.

Lemma speed_ms_zero speed_kmh : (speed_kmh * 1000 / 3600 == 0)%Q ↔ (speed_kmh == 0)%Q.
Proof.
  split; intros H.
  - assert (speed_kmh == (speed_kmh * 1000 / 3600) * (3600 / 1000))%Q as -> by (field; done).
    rewrite H. ring.
  - rewrite H. reflexivity.
Qed.


(** ** Lists that grow at the end *)

Lemma last_lookup (l : list Q) d :
  l ≠ [] → l !! (length l - 1) = Some (List.last l d).
Proof.
  induction l as [|x [|y l] IH]; intros Hne; [done|done|].
  specialize (IH ltac:(done)). simpl in *.
  by rewrite Nat.sub_0_r in IH.
Qed.


(** ** Travel times *)

Section TravelTimes.

Variable geodesic : Q * Q → Q * Q → Q.

(** A geodesic distance is never negative. *)
Hypothesis geodesic_nonneg : ∀ a b, (0 <= geodesic a b)%Q.

Lemma travel_times_loop_step speed_ms p q rest times :
  travel_times_loop geodesic speed_ms (p :: q :: rest) times =
  match pydiv (geodesic (p.2, p.1) (q.2, q.1)) speed_ms with
  | Ok travel_time =>
      travel_times_loop geodesic speed_ms (q :: rest)
        (times ++ [(List.last times 0 + travel_time)%Q])
  | Raise e => Raise e
  end.
Proof using Type. reflexivity. Qed.

Lemma travel_times_loop_nonzero speed_ms stops times :
  ¬ (speed_ms == 0)%Q →
  ∃ ext, travel_times_loop geodesic speed_ms stops times = Ok (times ++ ext)
         ∧ length ext = length stops - 1.
Proof using Type.
  intros Hs. revert times.
  induction stops as [|p rest IH]; intros times.
  { exists []. by rewrite app_nil_r. }
  destruct rest as [|q rest].
  { exists []. by rewrite app_nil_r. }
  rewrite travel_times_loop_step, pydiv_nonzero by done.
  destruct (IH (times ++ [(List.last times 0 +
    geodesic (p.2, p.1) (q.2, q.1) / speed_ms)%Q])) as (ext & Hext & Hlen).
  eexists (_ :: ext). rewrite Hext, <-app_assoc. split; [done|].
  simpl in *. lia.
Qed.




End TravelTimes.

Lemma taxicab_nonneg a b : (0 <= taxicab a b)%Q.
Proof.
  unfold taxicab.
  pose proof (Qabs_nonneg (fst a - fst b)). pose proof (Qabs_nonneg (snd a - snd b)).
  lra.
Qed.





(** ** The stop registry *)

Lemma intern_known coord reg sid :
  stop_id_map reg !! stop_key coord = Some sid → intern coord reg = (sid, reg).
Proof. intros H. unfold intern. by rewrite H. Qed.

Lemma intern_fresh coord reg :
  stop_id_map reg !! stop_key coord = None →
  intern coord reg =
    (stop_counter reg,
     {| all_stops := all_stops reg ++
          [{| stop_id := stop_counter reg;
              stop_name := "Stop " +:+ pretty (stop_counter reg);
              stop_lat := snd coord; stop_lon := fst coord |}];
        stop_coords := stop_coords reg ++ [(snd coord, fst coord)];
        stop_id_map := <[stop_key coord := stop_counter reg]> (stop_id_map reg);
        stop_counter := stop_counter reg + 1 |}).
Proof. intros H. unfold intern. by rewrite H. Qed.

(** After interning, the key of the coordinate is bound to the identity
    that was returned. *)
Lemma intern_binds coord reg :
  stop_id_map (intern coord reg).2 !! stop_key coord = Some (intern coord reg).1.
Proof.
  destruct (stop_id_map reg !! stop_key coord) as [sid|] eqn:E.
  - by rewrite (intern_known _ _ _ E).
  - rewrite (intern_fresh _ _ E). simpl. by rewrite lookup_insert_eq.
Qed.

(** Interning never rebinds a key. *)
Lemma intern_keeps coord reg k sid :
  stop_id_map reg !! k = Some sid → stop_id_map (intern coord reg).2 !! k = Some sid.
Proof.
  intros Hk. destruct (stop_id_map reg !! stop_key coord) as [sid'|] eqn:E.
  - by rewrite (intern_known _ _ _ E).
  - rewrite (intern_fresh _ _ E). simpl.
    rewrite lookup_insert_ne; [done|]. intros <-. congruence.
Qed.

Lemma empty_registry_inv : registry_inv empty_registry.
Proof. split; simpl; try done; intros *; by rewrite lookup_empty. Qed.

Lemma intern_inv coord reg : registry_inv reg → registry_inv (intern coord reg).2.
Proof.
  intros [Hc Hids Hco Hr Hinj Hst].
  destruct (stop_id_map reg !! stop_key coord) as [sid|] eqn:E.
  { rewrite (intern_known _ _ _ E). by split. }
  rewrite (intern_fresh _ _ E). split; simpl.
  - rewrite length_app. simpl. lia.
  - rewrite fmap_app, length_app, seq_app, Hids. simpl. by rewrite Hc.
  - by rewrite fmap_app, Hco.
  - intros k sid. rewrite lookup_insert. case_decide as Hk.
    + intros [= <-]. lia.
    + intros Hsid. apply Hr in Hsid. lia.
  - intros k1 k2 sid. rewrite !lookup_insert.
    repeat case_decide; subst; intros H1 H2; simplify_eq; try done.
    + apply Hr in H2. lia.
    + apply Hr in H1. lia.
    + eauto.
  - intros k sid. rewrite lookup_insert. case_decide as Hk.
    + intros [= <-].
      exists {| stop_id := stop_counter reg;
                stop_name := "Stop " +:+ pretty (stop_counter reg);
                stop_lat := snd coord; stop_lon := fst coord |}.
      split; [|split; [done|]].
      * rewrite Hc. simpl. rewrite Nat.sub_0_r.
        by rewrite lookup_app_r, Nat.sub_diag by lia.
      * simpl. by destruct coord.
    + intros Hsid. destruct (Hst _ _ Hsid) as (s & Hs & Hid & Hkey).
      exists s. split; [|done]. apply lookup_app_l_Some. done.
Qed.

Lemma reachable_inv reg : reachable reg → registry_inv reg.
Proof.
  induction 1 as [|coord reg _ IH]; [apply empty_registry_inv|by apply intern_inv].
Qed.

(** C6. Stop interning on any registry a run can reach.  A coordinate with a
    new key receives the next identity (the number of stops on record plus
    one, hence 1 on the empty registry) and is recorded unrounded under the
    name "Stop <identity>"; a coordinate whose key is on record receives
    the recorded identity and leaves the registry exactly as it was, so
    that interning is idempotent; and two keys never share an identity. *)
Theorem intern_contract (reg : Registry) (coord : Point) :
  reachable reg →
  (* a new key *)
  (stop_id_map reg !! stop_key coord = None →
     (intern coord reg).1 = S (length (all_stops reg))
     ∧ all_stops (intern coord reg).2 = all_stops reg ++
         [{| stop_id := (intern coord reg).1;
             stop_name := "Stop " +:+ pretty (intern coord reg).1;
             stop_lat := snd coord; stop_lon := fst coord |}]
     ∧ stop_coords (intern coord reg).2 = stop_coords reg ++ [(snd coord, fst coord)]
     ∧ stop_counter (intern coord reg).2 = S (intern coord reg).1)
  (* a key on record *)
  ∧ (∀ sid, stop_id_map reg !! stop_key coord = Some sid →
       intern coord reg = (sid, reg))
  (* idempotence, also for another coordinate with the same key *)
  ∧ (∀ coord', stop_key coord' = stop_key coord →
       intern coord' (intern coord reg).2 = intern coord reg)
  (* distinct keys, distinct identities *)
  ∧ (∀ coord', stop_key coord' ≠ stop_key coord →
       (intern coord' (intern coord reg).2).1 ≠ (intern coord reg).1)
  ∧ (∀ k1 k2 sid1 sid2,
       stop_id_map (intern coord reg).2 !! k1 = Some sid1 →
       stop_id_map (intern coord reg).2 !! k2 = Some sid2 →
       k1 ≠ k2 → sid1 ≠ sid2)
  (* identities start at 1 *)
  ∧ (intern coord empty_registry).1 = 1.
Proof.
  intros Hreach.
  pose proof (reachable_inv _ Hreach) as Hinv.
  pose proof (intern_inv coord _ Hinv) as Hinv'.
  split; [|split; [|split; [|split; [|split]]]].
  - intros Hnew. rewrite (intern_fresh _ _ Hnew). simpl.
    destruct Hinv as [Hc _ _ _ _ _]. rewrite Hc. repeat split. lia.
  - intros sid. apply intern_known.
  - intros coord' Hkey.
    rewrite (intern_known coord' _ (intern coord reg).1).
    + by destruct (intern coord reg).
    + rewrite Hkey. apply intern_binds.
  - intros coord' Hkey Heq.
    pose proof (intern_binds coord' (intern coord reg).2) as H1.
    pose proof (intern_keeps coord' _ _ _ (intern_binds coord reg)) as H2.
    rewrite Heq in H1.
    destruct (intern_inv coord' _ Hinv') as [_ _ _ _ Hinj _].
    by specialize (Hinj _ _ _ H1 H2).
  - intros k1 k2 sid1 sid2 H1 H2 Hne ->.
    destruct Hinv' as [_ _ _ _ Hinj _]. by specialize (Hinj _ _ _ H1 H2).
  - reflexivity.
Qed.

Lemma intern_contract_witness :
  reachable (intern (3, 0)%Q empty_registry).2 ∧
  (intern (3, 0)%Q (intern (3, 0)%Q empty_registry).2).1 = 1 ∧
  (intern (0, 0)%Q (intern (3, 0)%Q empty_registry).2).1 = 2.
Proof.
  split; [apply reachable_intern, reachable_empty|].
  pose proof (intern_contract (intern (3, 0)%Q empty_registry).2 (0, 0)%Q
                (reachable_intern _ _ reachable_empty)) as (Hnew & _).
  split; [reflexivity|]. by apply Hnew.
Defined.

(** ** Time formatting *)

Lemma Qfloor_unique (y : Q) (k : Z) :
  (inject_Z k <= y)%Q → (y < inject_Z (k + 1))%Q → Qfloor y = k.
Proof.
  intros Hlo Hhi.
  pose proof (Qfloor_le y) as Hfl. pose proof (Qlt_floor y) as Hfu.
  assert (inject_Z (Qfloor y) < inject_Z (k + 1))%Q as H1 by lra.
  assert (inject_Z k < inject_Z (Qfloor y + 1))%Q as H2 by lra.
  rewrite <-Zlt_Qlt in H1, H2. lia.
Qed.

Lemma Qfloor_div_Z (x : Q) (m : Z) :
  (0 < m)%Z → Qfloor (x / inject_Z m) = (Qfloor x `div` m)%Z.
Proof.
  intros Hm.
  pose proof (Qfloor_le x) as Hfl. pose proof (Qlt_floor x) as Hfu.
  assert (0 < inject_Z m)%Q as HmQ by (by rewrite (Zlt_Qlt 0 m) in Hm).
  pose proof (Z.mul_div_le (Qfloor x) m Hm) as Hlo.
  pose proof (Z.mul_succ_div_gt (Qfloor x) m Hm) as Hhi.
  apply Qfloor_unique.
  - apply Qle_shift_div_l; [done|].
    rewrite <-inject_Z_mult. eapply Qle_trans; [|exact Hfl].
    rewrite <-Zle_Qle. lia.
  - apply Qlt_shift_div_r; [done|].
    rewrite <-inject_Z_mult.
    eapply Qlt_le_trans; [exact Hfu|].
    rewrite <-Zle_Qle. lia.
Qed.

Lemma Qfloor_minus_Z (x : Q) (z : Z) : Qfloor (x - inject_Z z) = (Qfloor x - z)%Z.
Proof.
  pose proof (Qfloor_le x) as Hfl. pose proof (Qlt_floor x) as Hfu.
  apply Qfloor_unique.
  - unfold Z.sub. rewrite inject_Z_plus, inject_Z_opp. lra.
  - replace (Qfloor x - z + 1)%Z with ((Qfloor x + 1) + - z)%Z by lia.
    rewrite inject_Z_plus, inject_Z_opp. lra.
Qed.

Lemma pymod_floor (x : Q) (m : Z) :
  (0 < m)%Z → Qfloor (pymod x (inject_Z m)) = (Qfloor x `mod` m)%Z.
Proof.
  intros Hm. unfold pymod.
  rewrite <-inject_Z_mult, Qfloor_minus_Z, Qfloor_div_Z by done.
  rewrite Z.mod_eq by lia. done.
Qed.

Lemma pymod_nonneg (x : Q) (m : Z) : (0 < m)%Z → (0 <= pymod x (inject_Z m))%Q.
Proof.
  intros Hm. unfold pymod.
  assert (0 < inject_Z m)%Q as HmQ by (by rewrite (Zlt_Qlt 0 m) in Hm).
  pose proof (Qfloor_le (x / inject_Z m)) as Hfl.
  assert (inject_Z m * inject_Z (Qfloor (x / inject_Z m)) <= x)%Q; [|lra].
  apply (Qmult_le_compat_r _ _ (inject_Z m)) in Hfl; [|lra].
  assert (x / inject_Z m * inject_Z m == x)%Q as Hx by (field; lra).
  rewrite Hx in Hfl. lra.
Qed.

(** The float arithmetic of [seconds_to_gtfs_time] is the integer clock
    arithmetic on the whole seconds. *)
Lemma seconds_to_gtfs_time_hhmmss (seconds : Q) :
  seconds_to_gtfs_time seconds = hhmmss (Qfloor seconds).
Proof.
  unfold seconds_to_gtfs_time, hhmmss.
  change 3600%Q with (inject_Z 3600). change 60%Q with (inject_Z 60).
  rewrite !Qfloor_div_Z, pymod_floor by lia.
  unfold pyint. destruct (Qlt_le_dec (pymod seconds (inject_Z 60)) 0) as [Hneg|_].
  { pose proof (pymod_nonneg seconds 60 ltac:(lia)). lra. }
  rewrite pymod_floor by lia.
  replace ((Qfloor seconds `mod` 3600) `div` 60)%Z
    with ((Qfloor seconds `div` 60) `mod` 60)%Z; [done|].
  generalize (Qfloor seconds). intros n. clear seconds.
  Z.div_mod_to_equations. lia.
Qed.

Lemma pretty_N_go_length (x : N) (s : string) :
  String.length s ≤ String.length (pretty_N_go x s).
Proof.
  revert s. induction (N.lt_wf_0 x) as [x _ IH]. intros s.
  destruct (decide (x = 0)%N) as [->|Hx].
  { by rewrite pretty_N_go_0. }
  rewrite pretty_N_go_step by lia.
  etrans; [|apply IH; apply N.div_lt; lia]. simpl. lia.
Qed.

(** Numbers of two digits and more are printed as they are: padding does
    not cut anything off. *)
Lemma fmt02d_large (n : Z) : (10 ≤ n)%Z → fmt02d n = pretty n.
Proof.
  intros Hn. unfold fmt02d. case_decide as Hlen; [|done]. exfalso.
  destruct n as [|p|p]; try lia.
  unfold pretty, pretty_Z, pretty, pretty_positive, pretty, pretty_N in Hlen.
  case_decide; [done|].
  rewrite pretty_N_go_step in Hlen by lia.
  rewrite pretty_N_go_step in Hlen by (apply N.div_str_pos; lia).
  pose proof (pretty_N_go_length ((N.pos p `div` 10) `div` 10)
    (String (pretty_N_char ((N.pos p `div` 10) `mod` 10))
       (String (pretty_N_char (N.pos p `mod` 10)) ""))) as Hge.
  simpl in Hge. lia.
Qed.

(** Below a hundred the field is exactly two characters wide. *)
Lemma fmt02d_width (n : Z) : (0 ≤ n < 100)%Z → String.length (fmt02d n) = 2.
Proof.
  intros Hn.
  assert (Forall (λ k, String.length (fmt02d k) = 2) (seqZ 0 100)) as Hall
    by (by vm_compute; repeat constructor).
  rewrite Forall_lookup in Hall. apply (Hall (Z.to_nat n)).
  rewrite lookup_seqZ. lia.
Qed.

(** C8 as the specification states it fails in the single-route script:
    the first stop of a trip is written as "0:00:00", not as 06:00:00 in
    two-digit fields. *)
Lemma main_stop_time_not_padded :
  ∃ row, main_stop_times [0%Q] !! 0 = Some row
         ∧ arrival_time row = "0:00:00"
         ∧ hhmmss (Qfloor (base_start_time + 0)) = "06:00:00"
         ∧ arrival_time row ≠ hhmmss (Qfloor (base_start_time + 0)).
Proof. eexists. split; [reflexivity|]. by vm_compute. Qed.

(** C8, amended. In the multi-route scripts every stop-times row written
    for a non-negative travel offset carries, as arrival and as departure,
    the zero-padded HH:MM:SS of 06:00:00 plus the offset: minutes and
    seconds are two characters wide, and the hours are the whole hours
    since midnight, padded below 10 and printed in full from 10 on, never
    reduced modulo 24.  In the single-route script the departure string is
    the arrival string as well, but it is the text [timedelta] gives for
    the offset itself. *)
Theorem stop_times_format
    (idx : nat) (route_stops : list nat) (travel_times : list Q) (i : nat) (row : StopTime) :
  Forall (Qle 0) travel_times →
  route_stop_times idx route_stops travel_times !! i = Some row →
  (∃ t, travel_times !! i = Some t
     ∧ let total := Qfloor (base_start_time + t) in
       arrival_time row = hhmmss total
       ∧ departure_time row = arrival_time row
       ∧ (6 * 3600 ≤ total)%Z
       ∧ fmt02d (total `div` 3600) =
           (if decide (total `div` 3600 < 10)%Z
            then "0" +:+ pretty (total `div` 3600)%Z else pretty (total `div` 3600)%Z)
       ∧ String.length (fmt02d ((total `div` 60) `mod` 60)) = 2
       ∧ String.length (fmt02d (total `mod` 60)) = 2)
  ∧ (∀ times j row', main_stop_times times !! j = Some row' →
       departure_time row' = arrival_time row'
       ∧ ∃ t, times !! j = Some t ∧ arrival_time row' = timedelta_str (pyint t)).
Proof.
  intros Hpos Hrow. split.
  - unfold route_stop_times in Hrow. rewrite list_lookup_imap in Hrow.
    destruct (zip route_stops travel_times !! i) as [[sid t]|] eqn:Hz; [|done].
    apply lookup_zip_with_Some in Hz as (sid' & t' & [= <- <-] & Hsid & Ht).
    injection Hrow as <-. exists t. split; [done|].
    cbv zeta. cbn [arrival_time departure_time].
    assert (0 <= t)%Q as Ht0 by (eapply Forall_lookup_1; eauto).
    assert (6 * 3600 ≤ Qfloor (base_start_time + t))%Z as Hbase.
    { rewrite <-(Qfloor_Z (6 * 3600)). apply Qfloor_resp_le.
      unfold base_start_time. lra. }
    split; [apply seconds_to_gtfs_time_hhmmss|]. split; [done|]. split; [done|].
    split; [|split].
    + case_decide as Hh; [|apply fmt02d_large; lia].
      unfold fmt02d.
      assert (Forall (λ k, String.length (pretty k) < 2) (seqZ 0 10)) as Hall
        by (by vm_compute; repeat constructor).
      rewrite Forall_lookup in Hall.
      assert (0 ≤ Qfloor (base_start_time + t) `div` 3600)%Z as Hh0.
      { apply Z.div_pos; [|done]. etrans; [|exact Hbase]. done. }
      rewrite decide_True; [done|].
      apply (Hall (Z.to_nat (Qfloor (base_start_time + t) `div` 3600))).
      rewrite lookup_seqZ.
      generalize dependent (Qfloor (base_start_time + t) `div` 3600)%Z. lia.
    + apply fmt02d_width.
      pose proof (Z.mod_pos_bound (Qfloor (base_start_time + t) `div` 60) 60). lia.
    + apply fmt02d_width.
      pose proof (Z.mod_pos_bound (Qfloor (base_start_time + t)) 60). lia.
  - intros times j row' Hj. unfold main_stop_times in Hj.
    rewrite list_lookup_imap in Hj.
    destruct (times !! j) as [t|]; [|done]. injection Hj as <-.
    split; [done|]. by exists t.
Qed.

Lemma stop_times_format_witness :
  Forall (Qle 0) [0%Q; 120%Q] ∧
  ∃ row, route_stop_times 1 [1; 2] [0%Q; 120%Q] !! 1 = Some row
         ∧ arrival_time row = "06:02:00"
         ∧ departure_time row = arrival_time row.
Proof.
  assert (Forall (Qle 0) [0%Q; 120%Q]) as Hpos by (by repeat constructor).
  split; [exact Hpos|]. eexists. split; [reflexivity|].
  destruct (stop_times_format 1 [1; 2] [0%Q; 120%Q] 1 _ Hpos eq_refl)
    as [(t & Ht & Harr & Hdep & _) _].
  injection Ht as <-. split; [exact Harr|exact Hdep].
Defined.

(** ** The transfer search *)

Lemma within_sym r a b : within r a b = within r b a.
Proof.
  unfold within. apply eq_true_iff_eq. rewrite !Qle_bool_iff.
  assert ((a.1 - b.1) * (a.1 - b.1) + (a.2 - b.2) * (a.2 - b.2)
          == (b.1 - a.1) * (b.1 - a.1) + (b.2 - a.2) * (b.2 - a.2))%Q as -> by ring.
  done.
Qed.

Lemma elem_of_query_ball_point data x r j :
  j ∈ query_ball_point data x r ↔ ∃ c, data !! j = Some c ∧ within r c x = true.
Proof.
  unfold query_ball_point. rewrite list_elem_of_fmap. split.
  - intros ([k c] & Hj & Hin). simpl in Hj. subst j.
    apply list_elem_of_filter in Hin as [Hw Hin].
    apply elem_of_lookup_imap in Hin as (k' & y & [= -> ->] & Hk). eauto.
  - intros (c & Hc & Hw). exists (j, c). split; [done|].
    apply list_elem_of_filter. split; [done|].
    apply elem_of_lookup_imap. eauto.
Qed.

Lemma py_index_Ok {A} (l : list A) i a : py_index l i = Ok a ↔ l !! i = Some a.
Proof. unfold py_index. destruct (l !! i); naive_solver. Qed.

Lemma transfers_inner_elem stops i nearby acc out :
  transfers_inner stops i nearby acc = Ok out →
  ∀ p, p ∈ out ↔
    p ∈ acc ∨ ∃ j si sj, j ∈ nearby ∧ i ≠ j ∧ stops !! i = Some si ∧ stops !! j = Some sj
                         ∧ stop_id si ≠ stop_id sj ∧ p = (stop_id si, stop_id sj).
Proof.
  revert acc. induction nearby as [|j rest IH]; intros acc Hrun p.
  { injection Hrun as <-. split; [by left|]. intros [?|(j & ? & ? & Hj & _)]; [done|].
    by apply elem_of_nil in Hj. }
  cbn [transfers_inner] in Hrun. case_decide as Hij.
  - destruct (py_index stops i) as [si|] eqn:Hsi; [|done].
    destruct (py_index stops j) as [sj|] eqn:Hsj; [|done].
    apply py_index_Ok in Hsi, Hsj. cbn in Hrun. case_decide as Hid.
    + rewrite (IH _ Hrun p), elem_of_app, list_elem_of_singleton. split.
      * intros [[?| ->]|(j' & si' & sj' & Hj' & ?)]; [by left| |].
        -- right. exists j, si, sj. rewrite elem_of_cons. naive_solver.
        -- right. exists j', si', sj'. rewrite elem_of_cons. naive_solver.
      * intros [?|(j' & si' & sj' & Hj' & Hne & Hi' & Hj'' & Hid' & ->)]; [by left; left|].
        apply elem_of_cons in Hj' as [->|Hj'].
        -- left. right. congruence.
        -- right. naive_solver.
    + rewrite (IH _ Hrun p). split.
      * intros [?|(j' & si' & sj' & Hj' & ?)]; [by left|].
        right. exists j', si', sj'. rewrite elem_of_cons. naive_solver.
      * intros [?|(j' & si' & sj' & Hj' & Hne & Hi' & Hj'' & Hid' & ->)]; [by left|].
        apply elem_of_cons in Hj' as [->|Hj']; [|right; naive_solver].
        congruence.
  - subst j. rewrite (IH _ Hrun p). split.
    + intros [?|(j' & si' & sj' & Hj' & ?)]; [by left|].
      right. exists j', si', sj'. rewrite elem_of_cons. naive_solver.
    + intros [?|(j' & si' & sj' & Hj' & Hne & ?)]; [by left|].
      apply elem_of_cons in Hj' as [->|Hj']; [done|right; naive_solver].
Qed.

Lemma transfers_inner_ok stops i nearby acc :
  i < length stops → Forall (λ j, j < length stops) nearby →
  is_ok (transfers_inner stops i nearby acc) = true.
Proof.
  intros Hi Hall. revert acc. induction Hall as [|j rest Hj _ IH]; intros acc; [done|].
  cbn [transfers_inner]. case_decide; [|done].
  apply lookup_lt_is_Some in Hi as [si Hsi]. apply lookup_lt_is_Some in Hj as [sj Hsj].
  unfold py_index. rewrite Hsi, Hsj. cbn. by case_decide.
Qed.

Lemma transfers_outer_elem stops coords todo acc out :
  transfers_outer stops coords todo acc = Ok out →
  ∀ p, p ∈ out ↔
    p ∈ acc ∨ ∃ i c j si sj, (i, c) ∈ todo ∧ j ∈ query_ball_point coords c (3 # 10000)
                             ∧ i ≠ j ∧ stops !! i = Some si ∧ stops !! j = Some sj
                             ∧ stop_id si ≠ stop_id sj ∧ p = (stop_id si, stop_id sj).
Proof.
  revert acc. induction todo as [|[i [lat1 lon1]] rest IH]; intros acc Hrun p.
  { injection Hrun as <-. split; [by left|]. intros [?|(? & ? & ? & ? & ? & Hin & _)]; [done|].
    by apply elem_of_nil in Hin. }
  cbn [transfers_outer] in Hrun.
  destruct (transfers_inner stops i _ acc) as [mid|] eqn:Hin; [|done]. cbn in Hrun.
  rewrite (IH _ Hrun p), (transfers_inner_elem _ _ _ _ _ Hin p). split.
  - intros [[?|(j & si & sj & ?)]|(i' & c & j & si & sj & Hi' & ?)]; [by left| |].
    + right. exists i, (lat1, lon1), j, si, sj. rewrite elem_of_cons. naive_solver.
    + right. exists i', c, j, si, sj. rewrite elem_of_cons. naive_solver.
  - intros [?|(i' & c & j & si & sj & Hi' & ?)]; [by left; left|].
    apply elem_of_cons in Hi' as [[= -> ->]|Hi'].
    + left. right. naive_solver.
    + right. naive_solver.
Qed.

Lemma transfers_outer_ok stops coords todo acc :
  length coords ≤ length stops → Forall (λ ic, ic.1 < length stops) todo →
  is_ok (transfers_outer stops coords todo acc) = true.
Proof.
  intros Hlen Hall. revert acc.
  induction Hall as [|[i [lat1 lon1]] rest Hi _ IH]; intros acc; [done|].
  cbn [transfers_outer].
  pose proof (transfers_inner_ok stops i
    (query_ball_point coords (lat1, lon1) (3 # 10000)) acc Hi) as Hok.
  destruct (transfers_inner stops i _ acc); [apply IH|].
  apply Hok. apply Forall_forall. intros j Hj.
  apply elem_of_query_ball_point in Hj as (c & Hc & _).
  apply lookup_lt_Some in Hc. lia.
Qed.

(** What [find_transfers] collects is exactly the collisions. *)
Lemma find_transfers_elem stops coords out :
  find_transfers stops coords = Ok out →
  ∀ a b, (a, b) ∈ out ↔ collide stops coords a b.
Proof.
  intros Hrun a b. unfold find_transfers in Hrun. unfold collide. case_decide as Hlen.
  - rewrite (transfers_outer_elem _ _ _ _ _ Hrun (a, b)). split.
    + intros [Hnil|(i & c & j & si & sj & Hi & Hj & Hne & Hsi & Hsj & Hid & [= -> ->])].
      { by apply elem_of_nil in Hnil. }
      apply elem_of_lookup_imap in Hi as (i' & c' & [= -> ->] & Hi).
      apply elem_of_query_ball_point in Hj as (cj & Hcj & Hw).
      exists i', j, c', cj, si, sj. naive_solver.
    + intros (i & j & ci & cj & si & sj & Hi & Hj & Hw & Hne & Hsi & Hsj & Hid & -> & ->).
      right. exists i, ci, j, si, sj. split.
      { apply elem_of_lookup_imap. eauto. }
      split; [|done]. apply elem_of_query_ball_point. eauto.
  - injection Hrun as <-. split; [intros Hnil; by apply elem_of_nil in Hnil|].
    intros (i & j & ci & cj & _ & _ & Hi & Hj & _ & Hne & _).
    apply lookup_lt_Some in Hi, Hj. lia.
Qed.

Lemma find_transfers_ok stops coords :
  length stops = length coords → ∃ out, find_transfers stops coords = Ok out.
Proof.
  intros Hlen. unfold find_transfers. case_decide; [|by eexists].
  pose proof (transfers_outer_ok stops coords (imap (λ i c, (i, c)) coords) []) as Hok.
  destruct (transfers_outer _ _ _ _) as [out|]; [by eexists|].
  exfalso. assert (false = true); [|done]. apply Hok; [lia|].
  apply Forall_forall. intros [i c] Hi.
  apply elem_of_lookup_imap in Hi as (i' & c' & [= -> ->] & Hi).
  apply lookup_lt_Some in Hi. simpl. lia.
Qed.

Lemma collide_sym stops coords a b : collide stops coords a b → collide stops coords b a.
Proof.
  intros (i & j & ci & cj & si & sj & Hi & Hj & Hw & Hne & Hsi & Hsj & Hid & -> & ->).
  exists j, i, cj, ci, sj, si. rewrite within_sym. naive_solver.
Qed.

Lemma elem_of_transfer_rows transfers a b t m :
  (a, b, t, m) ∈ transfer_rows transfers ↔ (a, b) ∈ transfers ∧ t = 0 ∧ m = 60.
Proof.
  unfold transfer_rows, transfer_set. rewrite list_elem_of_fmap. split.
  - intros ([a' b'] & [= -> -> -> ->] & Hin).
    apply elem_of_elements, elem_of_list_to_set in Hin. done.
  - intros (Hin & -> & ->). exists (a, b). split; [done|].
    by apply elem_of_elements, elem_of_list_to_set.
Qed.

Lemma reachable_lengths reg :
  reachable reg → length (all_stops reg) = length (stop_coords reg).
Proof.
  intros Hreach. destruct (reachable_inv _ Hreach) as [_ _ Hco _ _ _].
  by rewrite Hco, length_fmap.
Qed.

(** C2 as the specification states it fails: two stops within the radius
    are written as two rows, one in each direction, so the unordered pair
    appears twice. *)
Lemma transfer_pair_written_twice :
  find_transfers near_stops near_coords = Ok [(1, 2); (2, 1)]
  ∧ (1, 2, 0, 60) ∈ transfer_rows [(1, 2); (2, 1)]
  ∧ (2, 1, 0, 60) ∈ transfer_rows [(1, 2); (2, 1)].
Proof.
  split; [reflexivity|].
  split; apply elem_of_transfer_rows; (split; [|done]); set_solver.
Qed.

(** C2, amended. The transfers written never pair an identity with itself,
    and each ordered pair (from, to) is written at most once, in whatever
    order the matches were found; the two directions of a collision are
    two different rows. *)
Theorem transfers_no_self_no_duplicate (stops : list Stop) (coords : list (Q * Q)) :
  length stops = length coords →
  ∃ transfers, find_transfers stops coords = Ok transfers
    ∧ (∀ a b t m, (a, b, t, m) ∈ transfer_rows transfers →
         a ≠ b ∧ t = 0 ∧ m = 60 ∧ collide stops coords a b)
    ∧ NoDup (transfer_rows transfers)
    ∧ NoDup (transfer_rows transfers).*1.*1
    ∧ (∀ found, found ≡ₚ transfers → transfer_set found = transfer_set transfers).
Proof.
  intros Hlen. destruct (find_transfers_ok _ _ Hlen) as [transfers Hrun].
  exists transfers. split; [done|].
  assert (NoDup (transfer_rows transfers).*1.*1) as Hnd.
  { unfold transfer_rows. rewrite <-!list_fmap_compose.
    erewrite (list_fmap_ext _ id); [|by intros i [a b] _].
    rewrite list_fmap_id. apply NoDup_elements. }
  split; [|split; [|split; [done|]]].
  - intros a b t m Hrow. apply elem_of_transfer_rows in Hrow as (Hin & -> & ->).
    apply (find_transfers_elem _ _ _ Hrun) in Hin. split; [|done].
    destruct Hin as (i & j & ci & cj & si & sj & _ & _ & _ & _ & _ & _ & Hid & -> & ->).
    done.
  - by do 2 apply NoDup_fmap_1 in Hnd.
  - intros found Hperm. unfold transfer_set. by rewrite Hperm.
Qed.

Lemma transfers_no_self_no_duplicate_witness :
  length near_stops = length near_coords ∧
  ∃ transfers, find_transfers near_stops near_coords = Ok transfers
    ∧ NoDup (transfer_rows transfers)
    ∧ ∀ a b t m, (a, b, t, m) ∈ transfer_rows transfers → a ≠ b.
Proof.
  split; [reflexivity|].
  destruct (transfers_no_self_no_duplicate near_stops near_coords eq_refl)
    as (transfers & Hrun & Hrows & Hnd & _).
  exists transfers. split; [exact Hrun|]. split; [exact Hnd|].
  intros a b t m Hin. exact (proj1 (Hrows a b t m Hin)).
Defined.

(** C9. The transfers written are symmetric: with a row from [a] to [b]
    there is a row from [b] to [a]. *)
Theorem transfers_symmetric (stops : list Stop) (coords : list (Q * Q)) :
  length stops = length coords →
  ∃ transfers, find_transfers stops coords = Ok transfers
    ∧ (∀ a b, (a, b) ∈ transfer_set transfers → (b, a) ∈ transfer_set transfers)
    ∧ (∀ a b t m, (a, b, t, m) ∈ transfer_rows transfers →
                  (b, a, t, m) ∈ transfer_rows transfers).
Proof.
  intros Hlen. destruct (find_transfers_ok _ _ Hlen) as [transfers Hrun].
  exists transfers. split; [done|].
  assert (∀ a b, (a, b) ∈ transfers → (b, a) ∈ transfers) as Hsym.
  { intros a b Hin. apply (find_transfers_elem _ _ _ Hrun).
    apply collide_sym. by apply (find_transfers_elem _ _ _ Hrun). }
  split.
  - intros a b. unfold transfer_set. rewrite !elem_of_list_to_set. apply Hsym.
  - intros a b t m. rewrite !elem_of_transfer_rows. naive_solver.
Qed.

Lemma transfers_symmetric_witness :
  length near_stops = length near_coords ∧
  ∃ transfers, find_transfers near_stops near_coords = Ok transfers
    ∧ ∀ a b, (a, b) ∈ transfer_set transfers → (b, a) ∈ transfer_set transfers.
Proof.
  split; [reflexivity|].
  destruct (transfers_symmetric near_stops near_coords eq_refl)
    as (transfers & Hrun & Hsym & _).
  exists transfers. split; [exact Hrun|exact Hsym].
Defined.

(** ** One route through the loop body *)

Lemma intern_route_spec coords reg route_stops route_stop_coords :
  ∃ reg' sids,
    intern_route coords reg route_stops route_stop_coords
      = (reg', route_stops ++ sids, route_stop_coords ++ coords)
    ∧ length sids = length coords
    ∧ (reachable reg → reachable reg').
Proof.
  revert reg route_stops route_stop_coords.
  induction coords as [|coord rest IH]; intros reg route_stops route_stop_coords.
  { exists reg, []. by rewrite !app_nil_r. }
  cbn [intern_route]. destruct (intern coord reg) as [sid reg1] eqn:Hint.
  destruct (IH reg1 (route_stops ++ [sid]) (route_stop_coords ++ [(coord.1, coord.2)]))
    as (reg' & sids & Hrun & Hlen & Hreach).
  exists reg', (sid :: sids). rewrite Hrun, <-!app_assoc. split; [|split].
  - by destruct coord.
  - simpl. by rewrite Hlen.
  - intros Hr. apply Hreach. replace reg1 with (intern coord reg).2 by (by rewrite Hint).
    by constructor.
Qed.

Section RunProperties.

Variable geodesic : Q * Q → Q * Q → Q.
Variable coord_distance : Point → Point → Q.
Variable speed_kmh : Q.
Variable stop_dist : Q.

Local Abbreviation resample := (generate_stops_and_times geodesic coord_distance).
Local Abbreviation body := (route_body geodesic coord_distance speed_kmh stop_dist).
Local Abbreviation gpx := (gpx_body geodesic coord_distance speed_kmh stop_dist).
Local Abbreviation kml := (kml_body geodesic coord_distance speed_kmh stop_dist).
Local Abbreviation ok := (route_ok geodesic coord_distance speed_kmh stop_dist).

(** The three ways through the body: the resampling raises and nothing
    has changed; the travel times raise and the stops of the route are in
    the registry; or the route is committed. *)
Lemma route_body_cases idx file points st :
  match resample points stop_dist with
  | Raise e => body idx file points st = (Raise e, st)
  | Ok interpolated =>
      ∃ reg sids,
        intern_route interpolated (registry st) [] [] = (reg, sids, interpolated)
        ∧ length sids = length interpolated
        ∧ (reachable (registry st) → reachable reg)
        ∧ match calculate_travel_times geodesic interpolated speed_kmh with
          | Raise e =>
              body idx file points st =
                (Raise e,
                 {| registry := reg; routes_data := routes_data st;
                    all_shapes := all_shapes st; all_stop_times := all_stop_times st;
                    printed := printed st |})
          | Ok travel_times =>
              body idx file points st =
                (Ok (),
                 {| registry := reg;
                    routes_data := routes_data st ++
                      [{| route_id := idx; route_name := basename file;
                          shape_id := idx; stops := sids |}];
                    all_shapes := all_shapes st ++ shape_rows idx points;
                    all_stop_times := all_stop_times st ++
                      route_stop_times idx sids travel_times;
                    printed := printed st |})
          end
  end.
Proof using Type.
  unfold route_body, mbind, run_bind, lift.
  destruct (resample points stop_dist) as [interpolated|e]; [|done].
  destruct (intern_route_spec interpolated (registry st) [] [])
    as (reg & sids & Hrun & Hlen & Hreach).
  exists reg, sids. split; [done|]. split; [done|]. split; [done|].
  unfold intern_stops. rewrite Hrun.
  destruct (calculate_travel_times geodesic interpolated speed_kmh) eqn:Htimes;
    cbn; unfold calculate_travel_times in Htimes; rewrite Htimes; reflexivity.
Qed.

Lemma gpx_body_eq idx file st :
  gpx idx file st =
    match parsed file with
    | Ok points => body idx file points (print (Processing (filename file)) st).2
    | Raise e => (Raise e, (print (Processing (filename file)) st).2)
    end.
Proof using Type.
  unfold gpx_body, mbind, run_bind, lift. cbn. by destruct (parsed file).
Qed.

Lemma kml_body_eq idx file st :
  kml idx file st =
    if decide (process_kml_file file = [])
    then print (WarningNoPoints (filename file))
           (print (Processing (filename file)) st).2
    else body idx file (process_kml_file file)
           (print (FoundPoints (length (process_kml_file file)))
              (print (Processing (filename file)) st).2).2.
Proof using Type.
  unfold kml_body, mbind, run_bind. cbn. by case_decide.
Qed.

Lemma route_ok_parsed file points :
  parsed file = Ok points →
  ok file = is_ok (interpolated ← resample points stop_dist;
                   calculate_travel_times geodesic interpolated speed_kmh).
Proof using Type. intros Hp. unfold route_ok, resample_file. by rewrite Hp. Qed.

Lemma route_stop_times_trip idx sids times :
  Forall (λ row, trip_id row = idx) (route_stop_times idx sids times).
Proof using Type.
  apply Forall_lookup. intros i row Hrow. unfold route_stop_times in Hrow.
  rewrite list_lookup_imap in Hrow.
  destruct (zip sids times !! i) as [[sid t]|]; [|done]. by injection Hrow as <-.
Qed.

Lemma shape_rows_shape sid points :
  Forall (λ row, sh_shape_id row = sid) (shape_rows sid points).
Proof using Type.
  apply Forall_lookup. intros i row Hrow. unfold shape_rows in Hrow.
  rewrite list_lookup_imap in Hrow.
  by apply fmap_Some in Hrow as (coord & _ & ->).
Qed.

(** What one turn of the loop adds to the aggregates, with points in hand. *)
Lemma try_body_step idx file points st0 st :
  routes_data st0 = routes_data st → all_shapes st0 = all_shapes st →
  all_stop_times st0 = all_stop_times st → registry st0 = registry st →
  ∃ new_routes new_shapes new_times,
    routes_data (try_route file (body idx file points) st0)
      = routes_data st ++ new_routes
    ∧ all_shapes (try_route file (body idx file points) st0)
      = all_shapes st ++ new_shapes
    ∧ all_stop_times (try_route file (body idx file points) st0)
      = all_stop_times st ++ new_times
    ∧ (if is_ok (interpolated ← resample points stop_dist;
                 calculate_travel_times geodesic interpolated speed_kmh)
       then ∃ sids, new_routes = [{| route_id := idx; route_name := basename file;
                                     shape_id := idx; stops := sids |}]
       else new_routes = [] ∧ new_shapes = [] ∧ new_times = [])
    ∧ Forall (λ row, sh_shape_id row = idx) new_shapes
    ∧ Forall (λ row, trip_id row = idx) new_times
    ∧ (reachable (registry st) →
       reachable (registry (try_route file (body idx file points) st0))).
Proof using Type.
  intros Hr Hs Ht Hreg. unfold try_route.
  pose proof (route_body_cases idx file points st0) as Hc.
  destruct (resample points stop_dist) as [interpolated|e] eqn:Hres.
  - destruct Hc as (reg & sids & Hint & Hlen & Hreach & Hc). rewrite Hreg in Hreach.
    destruct (calculate_travel_times geodesic interpolated speed_kmh)
      as [times|e] eqn:Htimes; rewrite Hc; cbn; rewrite Htimes; cbn.
    + exists [{| route_id := idx; route_name := basename file;
                 shape_id := idx; stops := sids |}],
             (shape_rows idx points), (route_stop_times idx sids times).
      rewrite Hr, Hs, Ht.
      repeat split; eauto using route_stop_times_trip, shape_rows_shape.
    + exists [], [], []. rewrite !app_nil_r. by repeat split.
  - rewrite Hc. cbn. exists [], [], []. rewrite !app_nil_r, Hreg. by repeat split.
Qed.

Lemma gpx_route_step idx file st :
  ∃ new_routes new_shapes new_times,
    routes_data (gpx_route geodesic coord_distance speed_kmh stop_dist idx file st)
      = routes_data st ++ new_routes
    ∧ all_shapes (gpx_route geodesic coord_distance speed_kmh stop_dist idx file st)
      = all_shapes st ++ new_shapes
    ∧ all_stop_times (gpx_route geodesic coord_distance speed_kmh stop_dist idx file st)
      = all_stop_times st ++ new_times
    ∧ (if ok file
       then ∃ sids, new_routes = [{| route_id := idx; route_name := basename file;
                                     shape_id := idx; stops := sids |}]
       else new_routes = [] ∧ new_shapes = [] ∧ new_times = [])
    ∧ Forall (λ row, sh_shape_id row = idx) new_shapes
    ∧ Forall (λ row, trip_id row = idx) new_times
    ∧ (reachable (registry st) →
       reachable (registry
         (gpx_route geodesic coord_distance speed_kmh stop_dist idx file st))).
Proof using Type.
  unfold gpx_route.
  destruct (parsed file) as [points|e] eqn:Hp.
  - rewrite (route_ok_parsed _ _ Hp).
    replace (try_route file (gpx idx file) st)
      with (try_route file (body idx file points)
              (print (Processing (filename file)) st).2).
    + by apply try_body_step.
    + unfold try_route. by rewrite gpx_body_eq, Hp.
  - unfold try_route. rewrite gpx_body_eq, Hp. cbn.
    exists [], [], []. rewrite !app_nil_r.
    unfold route_ok, resample_file. rewrite Hp. by repeat split.
Qed.

Lemma kml_route_step idx file st :
  ∃ new_routes new_shapes new_times,
    routes_data (kml_route geodesic coord_distance speed_kmh stop_dist idx file st)
      = routes_data st ++ new_routes
    ∧ all_shapes (kml_route geodesic coord_distance speed_kmh stop_dist idx file st)
      = all_shapes st ++ new_shapes
    ∧ all_stop_times (kml_route geodesic coord_distance speed_kmh stop_dist idx file st)
      = all_stop_times st ++ new_times
    ∧ (if ok file
       then ∃ sids, new_routes = [{| route_id := idx; route_name := basename file;
                                     shape_id := idx; stops := sids |}]
       else new_routes = [] ∧ new_shapes = [] ∧ new_times = [])
    ∧ Forall (λ row, sh_shape_id row = idx) new_shapes
    ∧ Forall (λ row, trip_id row = idx) new_times
    ∧ (reachable (registry st) →
       reachable (registry
         (kml_route geodesic coord_distance speed_kmh stop_dist idx file st))).
Proof using Type.
  unfold kml_route.
  destruct (decide (process_kml_file file = [])) as [Hnil|Hpts].
  - unfold try_route. rewrite kml_body_eq, decide_True by done. cbn.
    exists [], [], []. rewrite !app_nil_r.
    assert (ok file = false) as ->; [|by repeat split].
    unfold route_ok, resample_file, process_kml_file in *.
    destruct (parsed file) as [points|e]; [|done]. by subst points.
  - assert (parsed file = Ok (process_kml_file file)) as Hp.
    { unfold process_kml_file in *. by destruct (parsed file). }
    rewrite (route_ok_parsed _ _ Hp).
    replace (try_route file (kml idx file) st)
      with (try_route file (body idx file (process_kml_file file))
              (print (FoundPoints (length (process_kml_file file)))
                 (print (Processing (filename file)) st).2).2).
    + by apply try_body_step.
    + unfold try_route. by rewrite kml_body_eq, decide_False.
Qed.

End RunProperties.

(** ** The route loop *)

Lemma route_loop_adds ok step todo st :
  step_adds ok step →
  ∃ new_routes new_shapes new_times,
    routes_data (route_loop step todo st) = routes_data st ++ new_routes
    ∧ all_shapes (route_loop step todo st) = all_shapes st ++ new_shapes
    ∧ all_stop_times (route_loop step todo st) = all_stop_times st ++ new_times
    ∧ route_id <$> new_routes = (filter (λ p, ok p.2 = true) todo).*1
    ∧ Forall (λ r, shape_id r = route_id r
                   ∧ ∃ file, (route_id r, file) ∈ todo
                             ∧ route_name r = basename file ∧ ok file = true) new_routes
    ∧ Forall (λ row, sh_shape_id row ∈ route_id <$> new_routes) new_shapes
    ∧ Forall (λ row, trip_id row ∈ route_id <$> new_routes) new_times
    ∧ (reachable (registry st) → reachable (registry (route_loop step todo st))).
Proof.
  intros Hstep. revert st. induction todo as [|[idx file] rest IH]; intros st.
  { exists [], [], []. rewrite !app_nil_r. by repeat split. }
  cbn [route_loop].
  destruct (Hstep idx file st) as (r1 & s1 & t1 & Hr1 & Hs1 & Ht1 & Hok & Hsh1 & Htr1 & Hre1).
  destruct (IH (step idx file st))
    as (r2 & s2 & t2 & Hr2 & Hs2 & Ht2 & Hids & Hrt & Hsh2 & Htr2 & Hre2).
  exists (r1 ++ r2), (s1 ++ s2), (t1 ++ t2).
  rewrite Hr2, Hs2, Ht2, Hr1, Hs1, Ht1, <-!app_assoc.
  split; [done|]. split; [done|]. split; [done|].
  assert (Forall (λ r, shape_id r = route_id r
            ∧ ∃ file', (route_id r, file') ∈ (idx, file) :: rest
                       ∧ route_name r = basename file' ∧ ok file' = true) r2) as Hrt'.
  { eapply Forall_impl; [exact Hrt|]. intros r (? & f & ? & ?).
    split; [done|]. exists f. by rewrite elem_of_cons; auto. }
  destruct (ok file) eqn:Hfile.
  - destruct Hok as [sids ->]. rewrite filter_cons_True by done.
    split; [by rewrite fmap_app, Hids|]. split; [|split; [|split]].
    + apply Forall_app. split; [|done]. apply Forall_singleton. simpl.
      split; [done|]. exists file. rewrite elem_of_cons. auto.
    + apply Forall_app. split.
      * eapply Forall_impl; [exact Hsh1|]. intros row ->. set_solver.
      * eapply Forall_impl; [exact Hsh2|]. intros row ?. set_solver.
    + apply Forall_app. split.
      * eapply Forall_impl; [exact Htr1|]. intros row ->. set_solver.
      * eapply Forall_impl; [exact Htr2|]. intros row ?. set_solver.
    + auto.
  - destruct Hok as (-> & -> & ->). rewrite filter_cons_False by (simpl; congruence).
    simpl. repeat split; auto.
Qed.

Lemma elem_of_enumerate1 files idx file :
  (idx, file) ∈ enumerate1 files ↔ 1 ≤ idx ∧ files !! (idx - 1) = Some file.
Proof.
  unfold enumerate1. rewrite elem_of_lookup_imap. split.
  - intros (i & f & [= -> ->] & Hi). split; [lia|]. by replace (i + 1 - 1) with i by lia.
  - intros [Hidx Hf]. exists (idx - 1), file. split; [|done]. f_equal. lia.
Qed.

Lemma NoDup_enumerate1 files : NoDup (enumerate1 files).*1.
Proof.
  unfold enumerate1. rewrite fmap_imap.
  rewrite (imap_ext _ (λ i _, i + 1)) by done.
  rewrite (imap_seq_0 files (λ i, i + 1)). apply NoDup_fmap_2, NoDup_seq.
  intros i j. lia.
Qed.

Lemma route_loop_identities ok step files :
  step_adds ok step →
  route_identities_hold ok files (route_loop step (enumerate1 files) initial_state).
Proof.
  intros Hstep.
  destruct (route_loop_adds ok step (enumerate1 files) initial_state Hstep)
    as (rs & ss & ts & Hr & Hs & Ht & Hids & Hrt & Hsh & Htr & _).
  simpl in Hr, Hs, Ht. unfold route_identities_hold. rewrite Hr, Hs, Ht, Hids.
  split; [done|]. split; [|split; [|split]].
  - eapply sublist_NoDup; [apply NoDup_enumerate1|].
    apply fmap_sublist, sublist_filter.
  - intros r Hin. rewrite Forall_forall in Hrt.
    destruct (Hrt r Hin) as (Hshape & file & Hfile & Hname & Hok).
    apply elem_of_enumerate1 in Hfile as [Hidx Hfile]. eauto 10.
  - intros row Hin. rewrite <-Hids. rewrite Forall_forall in Htr. auto.
  - intros row Hin. rewrite <-Hids. rewrite Forall_forall in Hsh. auto.
Qed.

(** C10. In both multi-route scripts the routes of a finished loop are
    numbered by the 1-based position of their file in the listing: the
    identities are the positions of the files that got through, in order,
    none used twice, so a skipped file leaves a gap; the shape identity of
    a route is its route identity, and the trip and shape identities of the
    rows are route identities. *)
Theorem route_identities_by_position
    (geodesic : Q * Q → Q * Q → Q) (coord_distance : Point → Point → Q)
    (speed_kmh stop_dist : Q) (files : list InputFile) :
  route_identities_hold (route_ok geodesic coord_distance speed_kmh stop_dist) files
    (route_loop (gpx_route geodesic coord_distance speed_kmh stop_dist)
       (enumerate1 files) initial_state)
  ∧ route_identities_hold (route_ok geodesic coord_distance speed_kmh stop_dist) files
      (route_loop (kml_route geodesic coord_distance speed_kmh stop_dist)
         (enumerate1 files) initial_state).
Proof.
  split; apply route_loop_identities; intros idx file st.
  - apply gpx_route_step.
  - apply kml_route_step.
Qed.

(** A failed file between two good ones: the routes are numbered 1 and 3. *)
Lemma route_identities_gap :
  route_id <$> routes_data
    (route_loop (gpx_route taxicab taxicab 36 1)
       (enumerate1 [good_file "a"; bad_file "b"; good_file "c"]) initial_state)
  = [1; 3].
Proof. reflexivity. Qed.

(** ** A route that fails *)



Section FailedRoute.

Variable geodesic : Q * Q → Q * Q → Q.
Variable coord_distance : Point → Point → Q.
Variable speed_kmh : Q.
Variable stop_dist : Q.

Local Abbreviation resample := (generate_stops_and_times geodesic coord_distance).
Local Abbreviation body := (route_body geodesic coord_distance speed_kmh stop_dist).


End FailedRoute.




(** ** A run in which no route gets through *)

Lemma Forall_elem_of_nil {A B} (f : A → B) (l : list A) :
  Forall (λ x, f x ∈ ([] : list B)) l → l = [].
Proof. destruct l as [|x l]; [done|]. intros H. apply Forall_cons in H as [H _]. by apply elem_of_nil in H. Qed.

Lemma route_loop_nothing ok step files :
  step_adds ok step →
  Forall (λ file, ok file = false) files →
  routes_data (route_loop step (enumerate1 files) initial_state) = []
  ∧ all_shapes (route_loop step (enumerate1 files) initial_state) = []
  ∧ all_stop_times (route_loop step (enumerate1 files) initial_state) = [].
Proof.
  intros Hstep Hfail.
  destruct (route_loop_adds ok step (enumerate1 files) initial_state Hstep)
    as (rs & ss & ts & Hr & Hs & Ht & Hids & _ & Hsh & Htr & _).
  assert (filter (λ p, ok p.2 = true) (enumerate1 files) = []) as Hnone.
  { apply elem_of_nil_inv. intros [idx file] Hin.
    apply list_elem_of_filter in Hin as [Hok Hin].
    apply elem_of_enumerate1 in Hin as [_ Hin].
    rewrite Forall_lookup in Hfail. specialize (Hfail _ _ Hin). simpl in Hok. congruence. }
  rewrite Hnone in Hids. apply fmap_nil_inv in Hids as ->.
  apply Forall_elem_of_nil in Hsh as ->. apply Forall_elem_of_nil in Htr as ->.
  by rewrite Hr, Hs, Ht.
Qed.

Lemma route_loop_reachable ok step todo :
  step_adds ok step → reachable (registry (route_loop step todo initial_state)).
Proof.
  intros Hstep.
  destruct (route_loop_adds ok step todo initial_state Hstep)
    as (_ & _ & _ & _ & _ & _ & _ & _ & _ & _ & Hreach).
  apply Hreach. constructor.
Qed.

Lemma write_feed_archives frequency_headway st :
  reachable (registry st) →
  ∃ feed, write_feed frequency_headway st = Archive feed (printed st)
    ∧ routes_txt feed
        = (λ route, (route_id route, 1, route_name route, route_name route, 3))
            <$> routes_data st
    ∧ trips_txt feed
        = (λ route, (route_id route, 1, route_id route, shape_id route)) <$> routes_data st
    ∧ frequencies_txt feed
        = (λ route, (route_id route, "06:00:00", "22:00:00", frequency_headway))
            <$> routes_data st
    ∧ stop_times_txt feed
        = (λ row, (trip_id row, arrival_time row, departure_time row,
                   st_stop_id row, stop_sequence row)) <$> all_stop_times st
    ∧ shapes_txt feed
        = (λ shape, (sh_shape_id shape, shape_pt_lat shape, shape_pt_lon shape,
                     shape_pt_sequence shape)) <$> all_shapes st
    ∧ stops_txt feed
        = (λ stop, (stop_id stop, stop_name stop, stop_lat stop, stop_lon stop))
            <$> all_stops (registry st).
Proof.
  intros Hreach. unfold write_feed.
  destruct (find_transfers_ok _ _ (reachable_lengths _ Hreach)) as [transfers ->].
  eexists. split; [done|]. by repeat split.
Qed.

(** C3 fails in multiple_gpx.py: a run over a non-empty listing in which
    no file gets through does not stop with a failure, it writes the
    archive, with empty routes, trips, frequencies, stop-times and shapes
    tables. *)
Theorem gpx_run_without_routes
    (geodesic : Q * Q → Q * Q → Q) (coord_distance : Point → Point → Q)
    (speed_kmh stop_dist : Q) (frequency_headway : Z) (gpx_files : list InputFile) :
  gpx_files ≠ [] →
  Forall (λ file, route_ok geodesic coord_distance speed_kmh stop_dist file = false)
    gpx_files →
  ∃ feed out,
    run_gpx geodesic coord_distance speed_kmh stop_dist frequency_headway gpx_files
      = Archive feed out
    ∧ routes_txt feed = [] ∧ trips_txt feed = [] ∧ frequencies_txt feed = []
    ∧ stop_times_txt feed = [] ∧ shapes_txt feed = [].
Proof.
  intros Hne Hfail. unfold run_gpx. rewrite decide_False by done.
  assert (step_adds (route_ok geodesic coord_distance speed_kmh stop_dist)
            (gpx_route geodesic coord_distance speed_kmh stop_dist)) as Hstep
    by (intros idx file st; apply gpx_route_step).
  destruct (route_loop_nothing _ _ gpx_files Hstep Hfail) as (Hr & Hs & Ht).
  destruct (write_feed_archives frequency_headway _
              (route_loop_reachable _ _ (enumerate1 gpx_files) Hstep))
    as (feed & Hfeed & Hroutes & Htrips & Hfreq & Htimes & Hshapes & _).
  exists feed. eexists. split; [exact Hfeed|].
  by rewrite Hroutes, Htrips, Hfreq, Htimes, Hshapes, Hr, Hs, Ht.
Qed.

Lemma gpx_run_without_routes_witness :
  [bad_file "b"] ≠ [] ∧
  Forall (λ file, route_ok taxicab taxicab 36 1 file = false) [bad_file "b"] ∧
  ∃ feed out, run_gpx taxicab taxicab 36 1 600 [bad_file "b"] = Archive feed out
              ∧ routes_txt feed = [].
Proof.
  assert (Forall (λ file, route_ok taxicab taxicab 36 1 file = false) [bad_file "b"])
    as Hfail by (by repeat constructor).
  split; [done|]. split; [exact Hfail|].
  destruct (gpx_run_without_routes taxicab taxicab 36 1 600 [bad_file "b"]
              ltac:(done) Hfail) as (feed & out & Hrun & Hroutes & _).
  exists feed, out. split; [exact Hrun|exact Hroutes].
Defined.

(** multiple_kml.py has the guard: the same run stops with exit code 1
    before any table is written. *)
Lemma kml_run_without_routes
    (geodesic : Q * Q → Q * Q → Q) (coord_distance : Point → Point → Q)
    (speed_kmh stop_dist : Q) (frequency_headway : Z) (kml_files : list InputFile) :
  Forall (λ file, route_ok geodesic coord_distance speed_kmh stop_dist file = false)
    kml_files →
  ∃ out, run_kml geodesic coord_distance speed_kmh stop_dist frequency_headway kml_files
         = Exited 1 out.
Proof.
  intros Hfail. unfold run_kml. case_decide; [by eexists|].
  assert (step_adds (route_ok geodesic coord_distance speed_kmh stop_dist)
            (kml_route geodesic coord_distance speed_kmh stop_dist)) as Hstep
    by (intros idx file st; apply kml_route_step).
  destruct (route_loop_nothing _ _ kml_files Hstep Hfail) as (Hr & _).
  rewrite decide_True by done. by eexists.
Qed.

Lemma kml_run_without_routes_witness :
  Forall (λ file, route_ok taxicab taxicab 36 1 file = false) [bad_file "b"] ∧
  ∃ out, run_kml taxicab taxicab 36 1 600 [bad_file "b"] = Exited 1 out.
Proof.
  assert (Forall (λ file, route_ok taxicab taxicab 36 1 file = false) [bad_file "b"])
    as Hfail by (by repeat constructor).
  split; [exact Hfail|].
  exact (kml_run_without_routes taxicab taxicab 36 1 600 [bad_file "b"] Hfail).
Defined.

(** ** Resampling *)

Lemma Peq_refl p : Peq p p.
Proof. split; reflexivity. Qed.

Lemma Peq_trans p q r : Peq p q → Peq q r → Peq p r.
Proof. intros [H1 H2] [H3 H4]. split; [by rewrite H1|by rewrite H2]. Qed.

Lemma LineString_two pts : 2 ≤ length pts → LineString pts = Ok pts.
Proof. intros H. unfold LineString. by rewrite decide_True. Qed.

Lemma last_seqZ (n : Z) : (0 ≤ n)%Z → last (seqZ 0 (n + 1)) = Some n.
Proof.
  intros Hn. rewrite list.last_lookup, length_seqZ, lookup_seqZ. lia.
Qed.

Lemma length_interpolated_stops geodesic_unused line dist_step num_stops :
  length (interpolated_stops geodesic_unused line dist_step num_stops)
    = Z.to_nat (num_stops + 1).
Proof. unfold interpolated_stops. by rewrite length_fmap, length_seqZ. Qed.

Section Resampling.

Variable geodesic : Q * Q → Q * Q → Q.
Variable coord_distance : Point → Point → Q.

Hypothesis geodesic_nonneg : ∀ a b, (0 <= geodesic a b)%Q.
Hypothesis coord_distance_nonneg : ∀ p q, (0 <= coord_distance p q)%Q.
Hypothesis coord_distance_zero : ∀ p q, (coord_distance p q == 0)%Q → Peq p q.

Lemma geodesic_length_from_ge total coords :
  (total <= geodesic_length_from geodesic total coords)%Q.
Proof using geodesic_nonneg.
  revert total. induction coords as [|p rest IH]; intros total; [apply Qle_refl|].
  destruct rest as [|q rest]; [apply Qle_refl|].
  change (total <= geodesic_length_from geodesic
            (total + geodesic (reversed p) (reversed q)) (q :: rest))%Q.
  eapply Qle_trans; [|apply IH]. pose proof (geodesic_nonneg (reversed p) (reversed q)). lra.
Qed.

Lemma geodesic_length_nonneg coords : (0 <= geodesic_length geodesic coords)%Q.
Proof using geodesic_nonneg. apply geodesic_length_from_ge. Qed.

Lemma line_length_from_ge total pts :
  (total <= line_length_from coord_distance total pts)%Q.
Proof using coord_distance_nonneg.
  revert total. induction pts as [|p rest IH]; intros total; [apply Qle_refl|].
  destruct rest as [|q rest]; [apply Qle_refl|].
  change (total <= line_length_from coord_distance
            (total + coord_distance p q) (q :: rest))%Q.
  eapply Qle_trans; [|apply IH]. pose proof (coord_distance_nonneg p q). lra.
Qed.

(** At or past the end of the line the walk stops at the last vertex. *)
Lemma interpolate_from_end total pts d :
  (line_length_from coord_distance total pts <= d)%Q →
  interpolate_from coord_distance total pts d = List.last pts (0, 0)%Q.
Proof using coord_distance_nonneg.
  revert total. induction pts as [|p0 rest IH]; intros total Hd; [done|].
  destruct rest as [|p1 rest]; [done|].
  change (line_length_from coord_distance (total + coord_distance p0 p1) (p1 :: rest) <= d)%Q
    in Hd.
  change (interpolate_from coord_distance total (p0 :: p1 :: rest) d)
    with (if Qlt_le_dec d (total + coord_distance p0 p1)
          then point_along p0 p1 ((d - total) / coord_distance p0 p1)%Q
          else interpolate_from coord_distance (total + coord_distance p0 p1) (p1 :: rest) d).
  destruct (Qlt_le_dec d (total + coord_distance p0 p1)) as [Hlt|_].
  - pose proof (line_length_from_ge (total + coord_distance p0 p1) (p1 :: rest)). lra.
  - rewrite IH by done. done.
Qed.

(** A line of length 0 has all its vertices in one place. *)
Lemma line_length_zero total pts :
  (line_length_from coord_distance total pts <= total)%Q →
  Peq (hd (0, 0)%Q pts) (List.last pts (0, 0)%Q).
Proof using coord_distance_nonneg coord_distance_zero.
  revert total. induction pts as [|p0 rest IH]; intros total Hlen; [apply Peq_refl|].
  destruct rest as [|p1 rest]; [apply Peq_refl|].
  change (line_length_from coord_distance (total + coord_distance p0 p1) (p1 :: rest)
          <= total)%Q in Hlen.
  pose proof (line_length_from_ge (total + coord_distance p0 p1) (p1 :: rest)) as Hge.
  pose proof (coord_distance_nonneg p0 p1) as Hseg.
  change (Peq p0 (List.last (p1 :: rest) (0, 0)%Q)).
  apply (Peq_trans _ p1).
  - apply coord_distance_zero. lra.
  - apply (IH (total + coord_distance p0 p1)%Q). lra.
Qed.

Lemma interpolate_start pts d : (d == 0)%Q → interpolate coord_distance pts d = hd (0, 0)%Q pts.
Proof using Type.
  intros Hd. unfold interpolate.
  destruct (Qlt_le_dec d 0) as [Hneg|_]; [lra|].
  assert (Qle_bool d 0 = true) as -> by (apply Qle_bool_iff; lra). done.
Qed.

Lemma interpolate_end pts d :
  (d == line_length coord_distance pts)%Q →
  Peq (interpolate coord_distance pts d) (List.last pts (0, 0)%Q).
Proof using coord_distance_nonneg coord_distance_zero.
  intros Hd. unfold interpolate.
  pose proof (line_length_from_ge 0 pts) as Hge. fold (line_length coord_distance pts) in Hge.
  destruct (Qlt_le_dec d 0) as [Hneg|_]; [lra|].
  destruct (Qle_bool d 0) eqn:Hzero.
  - apply Qle_bool_iff in Hzero. apply (line_length_zero 0).
    fold (line_length coord_distance pts). lra.
  - rewrite interpolate_from_end; [apply Peq_refl|].
    fold (line_length coord_distance pts). lra.
Qed.

(** The clamped stop count of the multi-route scripts is at least 1, so
    the division by it goes through. *)
Lemma generate_stops_and_times_eq points stop_dist :
  2 ≤ length points → ¬ (stop_dist == 0)%Q →
  generate_stops_and_times geodesic coord_distance points stop_dist =
    Ok (interpolated_stops coord_distance points
          (line_length coord_distance points
             / inject_Z (Z.max (Qfloor (geodesic_length geodesic points / stop_dist)) 1))
          (Z.max (Qfloor (geodesic_length geodesic points / stop_dist)) 1)).
Proof using Type.
  intros Hlen Hs. unfold generate_stops_and_times.
  rewrite LineString_two by done. unfold mbind, result_bind.
  rewrite pyfloordiv_nonzero by done.
  rewrite pydiv_nonzero; [done|].
  intros Hz. assert (0 < inject_Z (Z.max (Qfloor (geodesic_length geodesic points / stop_dist)) 1))%Q.
  { change 0%Q with (inject_Z 0). rewrite <-Zlt_Qlt. lia. }
  lra.
Qed.

Lemma generate_stops_and_times_contract points stop_dist :
  2 ≤ length points → (0 < stop_dist)%Q →
  ∃ stops first final,
    generate_stops_and_times geodesic coord_distance points stop_dist = Ok stops
    ∧ length stops
        = Z.to_nat (Z.max (Qfloor (geodesic_length geodesic points / stop_dist)) 1) + 1
    ∧ head stops = Some first ∧ head points = Some first
    ∧ last stops = Some final ∧ Peq final (List.last points (0, 0)%Q).
Proof using geodesic_nonneg coord_distance_nonneg coord_distance_zero.
  intros Hlen Hs.
  rewrite generate_stops_and_times_eq by (done || lra).
  set (n := Z.max (Qfloor (geodesic_length geodesic points / stop_dist)) 1).
  assert (1 ≤ n)%Z as Hn by lia.
  assert (0 < inject_Z n)%Q as HnQ
    by (change 0%Q with (inject_Z 0); rewrite <-Zlt_Qlt; lia).
  destruct points as [|first rest]; [simpl in Hlen; lia|].
  eexists _, first, _. split; [done|].
  split; [rewrite length_interpolated_stops; lia|].
  unfold interpolated_stops. rewrite fmap_last, last_seqZ by lia.
  rewrite seqZ_cons by lia. cbn [fmap list_fmap head].
  split; [|split; [done|split; [done|]]].
  - f_equal. rewrite interpolate_start; [done|]. ring.
  - apply interpolate_end. field. lra.
Qed.

(** The unclamped stop count of main.py is 0 on a route shorter than the
    spacing, and the division by it raises. *)
Lemma main_resample_short points stop_dist :
  2 ≤ length points → (0 < stop_dist)%Q →
  (geodesic_length geodesic points < stop_dist)%Q →
  main_resample geodesic coord_distance points stop_dist = Raise ZeroDivisionError.
Proof using geodesic_nonneg.
  intros Hlen Hs Hshort. unfold main_resample.
  rewrite LineString_two by done. unfold mbind, result_bind.
  rewrite pyfloordiv_nonzero by lra.
  assert (Qfloor (geodesic_length geodesic points / stop_dist) = 0%Z) as ->.
  { pose proof (geodesic_length_nonneg points).
    apply Qfloor_unique.
    - apply Qle_shift_div_l; [done|]. change (inject_Z 0) with 0%Q. lra.
    - apply Qlt_shift_div_r; [done|]. change (inject_Z (0 + 1)) with 1%Q. lra. }
  by rewrite pydiv_zero.
Qed.

End Resampling.

Lemma taxicab_zero p q : (taxicab p q == 0)%Q → Peq p q.
Proof.
  unfold taxicab, Peq. intros H.
  pose proof (Qabs_nonneg (p.1 - q.1)) as H1. pose proof (Qabs_nonneg (p.2 - q.2)) as H2.
  assert (Qabs (p.1 - q.1) == 0)%Q as Ha by lra.
  assert (Qabs (p.2 - q.2) == 0)%Q as Hb by lra.
  pose proof (Qabs_Qle_condition (p.1 - q.1) 0) as [Hc _].
  pose proof (Qabs_Qle_condition (p.2 - q.2) 0) as [Hd _].
  destruct Hc as [? ?]; [lra|]. destruct Hd as [? ?]; [lra|]. split; lra.
Qed.

(** C1 fails in main.py: on a route shorter than the spacing the stop count
    is 0, not 1, and the script stops with a division error; the
    multi-route scripts return the two end points on the same input. *)
Theorem main_resample_short_route
    (geodesic : Q * Q → Q * Q → Q) (coord_distance : Point → Point → Q)
    (points : list Point) (stop_dist : Q) :
  (∀ a b, (0 <= geodesic a b)%Q) →
  2 ≤ length points →
  (0 < stop_dist)%Q →
  (geodesic_length geodesic points < stop_dist)%Q →
  main_resample geodesic coord_distance points stop_dist = Raise ZeroDivisionError
  ∧ Z.max (Qfloor (geodesic_length geodesic points / stop_dist)) 1 = 1%Z
  ∧ ∃ stops, generate_stops_and_times geodesic coord_distance points stop_dist = Ok stops
             ∧ length stops = 2.
Proof.
  intros Hgeo Hlen Hs Hshort.
  split; [by apply main_resample_short|].
  assert (Qfloor (geodesic_length geodesic points / stop_dist) = 0%Z) as Hfloor.
  { pose proof (geodesic_length_nonneg geodesic Hgeo points).
    apply Qfloor_unique.
    - apply Qle_shift_div_l; [done|]. change (inject_Z 0) with 0%Q. lra.
    - apply Qlt_shift_div_r; [done|]. change (inject_Z (0 + 1)) with 1%Q. lra. }
  split; [by rewrite Hfloor|].
  rewrite generate_stops_and_times_eq by (done || lra).
  eexists. split; [done|]. by rewrite length_interpolated_stops, Hfloor.
Qed.

Lemma main_resample_short_route_witness :
  (∀ a b, (0 <= taxicab a b)%Q) ∧ 2 ≤ length straight3 ∧ (0 < 5)%Q
  ∧ (geodesic_length taxicab straight3 < 5)%Q
  ∧ main_resample taxicab taxicab straight3 5 = Raise ZeroDivisionError.
Proof.
  split; [apply taxicab_nonneg|]. split; [by vm_compute|].
  split; [reflexivity|]. split; [reflexivity|].
  exact (proj1 (main_resample_short_route taxicab taxicab straight3 5
                  taxicab_nonneg ltac:(by vm_compute) eq_refl eq_refl)).
Defined.

(** * Further properties of the scripts *)

(** ** Resampling: the two flows, and the spacing they accept *)

(** On a route at least as long as the spacing the unclamped stop count of
    main.py is the clamped one: the single-route script places the same
    stops as the multi-route scripts, floor(L/S) + 1 of them. *)
Theorem main_resample_agrees
    (geodesic : Q * Q → Q * Q → Q) (coord_distance : Point → Point → Q)
    (points : list Point) (stop_dist : Q) :
  2 ≤ length points →
  (0 < stop_dist)%Q →
  (stop_dist <= geodesic_length geodesic points)%Q →
  ∃ stops,
    main_resample geodesic coord_distance points stop_dist = Ok stops
    ∧ generate_stops_and_times geodesic coord_distance points stop_dist = Ok stops
    ∧ length stops
        = Z.to_nat (Qfloor (geodesic_length geodesic points / stop_dist)) + 1.
Proof.
  intros Hlen Hs Hlong.
  assert (1 ≤ Qfloor (geodesic_length geodesic points / stop_dist))%Z as Hq.
  { rewrite <-(Qfloor_Z 1). apply Qfloor_resp_le.
    apply Qle_shift_div_l; [done|]. change (inject_Z 1) with 1%Q. lra. }
  rewrite generate_stops_and_times_eq by (done || lra).
  unfold main_resample. rewrite LineString_two by done. unfold mbind, result_bind.
  rewrite pyfloordiv_nonzero by lra.
  rewrite Z.max_l by done.
  rewrite pydiv_nonzero.
  - eexists. split; [done|]. split; [done|].
    rewrite length_interpolated_stops. lia.
  - intros Hz.
    assert (0 < inject_Z (Qfloor (geodesic_length geodesic points / stop_dist)))%Q
      by (change 0%Q with (inject_Z 0); rewrite <-Zlt_Qlt; lia).
    lra.
Qed.

Lemma main_resample_agrees_witness :
  2 ≤ length straight3 ∧ (0 < 1)%Q ∧ (1 <= geodesic_length taxicab straight3)%Q
  ∧ ∃ stops, main_resample taxicab taxicab straight3 1 = Ok stops
             ∧ generate_stops_and_times taxicab taxicab straight3 1 = Ok stops
             ∧ length stops = 4.
Proof.
  split; [by vm_compute|]. split; [reflexivity|]. split; [by vm_compute|].
  exact (main_resample_agrees taxicab taxicab straight3 1
           ltac:(by vm_compute) eq_refl ltac:(by vm_compute)).
Defined.

(** No spacing is rejected as such.  A spacing of 0 stops both flows with
    the division error of the floor division; a negative spacing goes
    through in the multi-route scripts, where the clamp turns the
    non-positive quotient into one stop pair. *)
Theorem resample_spacing_not_validated
    (geodesic : Q * Q → Q * Q → Q) (coord_distance : Point → Point → Q)
    (points : list Point) (stop_dist : Q) :
  (∀ a b, (0 <= geodesic a b)%Q) →
  2 ≤ length points →
  ((stop_dist == 0)%Q →
     generate_stops_and_times geodesic coord_distance points stop_dist
       = Raise ZeroDivisionError
     ∧ main_resample geodesic coord_distance points stop_dist = Raise ZeroDivisionError)
  ∧ ((stop_dist < 0)%Q →
       ∃ stops, generate_stops_and_times geodesic coord_distance points stop_dist = Ok stops
                ∧ length stops = 2).
Proof.
  intros Hgeo Hlen. split.
  - intros Hz. unfold generate_stops_and_times, main_resample, pyfloordiv.
    rewrite LineString_two by done. unfold mbind, result_bind.
    by apply Qeq_bool_iff in Hz as ->.
  - intros Hneg. rewrite generate_stops_and_times_eq by (done || lra).
    eexists. split; [done|]. rewrite length_interpolated_stops.
    assert (Qfloor (geodesic_length geodesic points / stop_dist) ≤ 0)%Z; [|lia].
    rewrite <-(Qfloor_Z 0). apply Qfloor_resp_le.
    pose proof (geodesic_length_nonneg geodesic Hgeo points) as Hl.
    change (inject_Z 0) with 0%Q.
    assert (geodesic_length geodesic points / stop_dist
            == - (geodesic_length geodesic points / - stop_dist))%Q as ->
      by (field; lra).
    assert (0 <= geodesic_length geodesic points / - stop_dist)%Q; [|lra].
    apply Qle_shift_div_l; lra.
Qed.

Lemma resample_spacing_not_validated_witness :
  (∀ a b, (0 <= taxicab a b)%Q) ∧ 2 ≤ length straight3
  ∧ generate_stops_and_times taxicab taxicab straight3 0 = Raise ZeroDivisionError
  ∧ ∃ stops, generate_stops_and_times taxicab taxicab straight3 (-1) = Ok stops
             ∧ length stops = 2.
Proof.
  split; [apply taxicab_nonneg|]. split; [by vm_compute|].
  split.
  - exact (proj1 (proj1 (resample_spacing_not_validated taxicab taxicab straight3 0
                           taxicab_nonneg ltac:(by vm_compute)) ltac:(reflexivity))).
  - exact (proj2 (resample_spacing_not_validated taxicab taxicab straight3 (-1)
                    taxicab_nonneg ltac:(by vm_compute)) eq_refl).
Defined.

(** ** Travel times: the total *)

Lemma geodesic_length_from_shift geodesic total coords :
  (geodesic_length_from geodesic total coords
   == total + geodesic_length_from geodesic 0 coords)%Q.
Proof.
  revert total. induction coords as [|p rest IH]; intros total; [simpl; ring|].
  destruct rest as [|q rest]; [simpl; ring|].
  change (geodesic_length_from geodesic (total + geodesic (reversed p) (reversed q)) (q :: rest)
          == total + geodesic_length_from geodesic
                       (0 + geodesic (reversed p) (reversed q)) (q :: rest))%Q.
  rewrite (IH (total + _)%Q), (IH (0 + _)%Q). ring.
Qed.

Lemma travel_times_loop_last geodesic speed_ms stops times out :
  ¬ (speed_ms == 0)%Q →
  travel_times_loop geodesic speed_ms stops times = Ok out →
  (List.last out 0 == List.last times 0 + geodesic_length geodesic stops / speed_ms)%Q.
Proof.
  intros Hs. unfold geodesic_length. revert times.
  induction stops as [|p rest IH]; intros times Hout.
  { injection Hout as <-. simpl. field. done. }
  destruct rest as [|q rest].
  { injection Hout as <-. simpl. field. done. }
  rewrite travel_times_loop_step, pydiv_nonzero in Hout by done.
  apply IH in Hout. rewrite Hout, last_last.
  change (geodesic_length_from geodesic 0 (p :: q :: rest))
    with (geodesic_length_from geodesic (0 + geodesic (reversed p) (reversed q)) (q :: rest)).
  rewrite (geodesic_length_from_shift geodesic (0 + _)%Q).
  unfold reversed. field. done.
Qed.

(** The last cumulative time is the geodesic length of the stop sequence
    divided by the speed in metres per second, for any speed other than 0. *)
Theorem total_travel_time
    (geodesic : Q * Q → Q * Q → Q) (stops : list Point) (speed_kmh : Q) :
  ¬ (speed_kmh == 0)%Q →
  ∃ times, calculate_travel_times geodesic stops speed_kmh = Ok times
    ∧ (List.last times 0
       == geodesic_length geodesic stops / (speed_kmh * 1000 / 3600))%Q.
Proof.
  intros Hs. unfold calculate_travel_times.
  assert (¬ (speed_kmh * 1000 / 3600 == 0)%Q) as Hms by (by rewrite speed_ms_zero).
  destruct (travel_times_loop_nonzero geodesic _ stops [0%Q] Hms) as (ext & Hrun & _).
  eexists. split; [exact Hrun|].
  rewrite (travel_times_loop_last _ _ _ _ _ Hms Hrun). simpl. ring.
Qed.

Lemma total_travel_time_witness :
  ¬ (36 == 0)%Q ∧
  ∃ times, calculate_travel_times taxicab [(0, 0); (1, 0); (3, 0)]%Q 36 = Ok times
    ∧ (List.last times 0 == geodesic_length taxicab [(0, 0); (1, 0); (3, 0)]%Q
                              / (36 * 1000 / 3600))%Q.
Proof.
  split; [done|].
  exact (total_travel_time taxicab [(0, 0); (1, 0); (3, 0)]%Q 36 ltac:(done)).
Defined.

Lemma generate_stops_and_times_contract_witness :
  (∀ a b, (0 <= taxicab a b)%Q) ∧ (∀ p q, (0 <= taxicab p q)%Q)
  ∧ (∀ p q, (taxicab p q == 0)%Q → Peq p q)
  ∧ 2 ≤ length straight3 ∧ (0 < 1)%Q
  ∧ ∃ stops first final,
      generate_stops_and_times taxicab taxicab straight3 1 = Ok stops
      ∧ length stops
          = Z.to_nat (Z.max (Qfloor (geodesic_length taxicab straight3 / 1)) 1) + 1
      ∧ head stops = Some first ∧ head straight3 = Some first
      ∧ last stops = Some final ∧ Peq final (List.last straight3 (0, 0)%Q).
Proof.
  split; [apply taxicab_nonneg|]. split; [apply taxicab_nonneg|].
  split; [apply taxicab_zero|]. split; [by vm_compute|]. split; [reflexivity|].
  exact (generate_stops_and_times_contract taxicab taxicab taxicab_nonneg taxicab_nonneg
           taxicab_zero straight3 1 ltac:(by vm_compute) eq_refl).
Defined.

Lemma find_transfers_elem_witness :
  find_transfers near_stops near_coords = Ok [(1, 2); (2, 1)]
  ∧ ((1, 2) ∈ [(1, 2); (2, 1)] ↔ collide near_stops near_coords 1 2).
Proof.
  split; [reflexivity|].
  exact (find_transfers_elem near_stops near_coords [(1, 2); (2, 1)] eq_refl 1 2).
Defined.

(** ** Shapes and times as they are written *)

(** The shape rows of a route give back its points, in order, numbered
    from 1, all under the identity of the route. *)
Theorem shape_rows_keep_points (sid : nat) (points : list Point) :
  (λ row, (shape_pt_lon row, shape_pt_lat row)) <$> shape_rows sid points = points
  ∧ shape_pt_sequence <$> shape_rows sid points = seq 1 (length points)
  ∧ Forall (λ row, sh_shape_id row = sid) (shape_rows sid points).
Proof.
  split; [|split; [|apply shape_rows_shape]].
  - apply list_eq. intros i. unfold shape_rows, Point in *.
    rewrite list_lookup_fmap, list_lookup_imap.
    by destruct (points !! i) as [[x y]|].
  - apply list_eq. intros i. unfold shape_rows, Point in *.
    rewrite list_lookup_fmap, list_lookup_imap.
    destruct (points !! i) as [c|] eqn:Hi; simpl.
    + rewrite lookup_seq_lt by (by apply lookup_lt_Some in Hi). f_equal. lia.
    + rewrite lookup_seq_ge; [done|]. by apply lookup_ge_None.
Qed.

(** The three fields of a time written by the multi-route scripts are the
    whole seconds taken apart: they add up to the floor of the seconds,
    minutes and seconds are below 60, and the hours carry the rest,
    whatever its size or sign. *)
Theorem gtfs_time_fields (seconds : Q) :
  ∃ h m s : Z,
    seconds_to_gtfs_time seconds = fmt02d h +:+ ":" +:+ fmt02d m +:+ ":" +:+ fmt02d s
    ∧ (h * 3600 + m * 60 + s = Qfloor seconds)%Z
    ∧ (0 ≤ m < 60)%Z ∧ (0 ≤ s < 60)%Z.
Proof.
  exists (Qfloor seconds `div` 3600)%Z, ((Qfloor seconds `div` 60) `mod` 60)%Z,
         (Qfloor seconds `mod` 60)%Z.
  split; [apply seconds_to_gtfs_time_hhmmss|].
  generalize (Qfloor seconds). intros n. clear seconds.
  repeat split; Z.div_mod_to_equations; lia.
Qed.

(** ** The tolerance of the stop key *)

Lemma round_half_even_close (x : Q) :
  (inject_Z (round_half_even x) - (1 # 2) <= x)%Q
  ∧ (x <= inject_Z (round_half_even x) + (1 # 2))%Q.
Proof.
  unfold round_half_even.
  pose proof (Qfloor_le x) as Hlo. pose proof (Qlt_floor x) as Hhi.
  rewrite inject_Z_plus in Hhi. change (inject_Z 1) with 1%Q in Hhi.
  destruct ((x - inject_Z (Qfloor x)) ?= (1 # 2))%Q eqn:Hcmp.
  - apply Qeq_alt in Hcmp.
    destruct (Z.even (Qfloor x)); [|rewrite inject_Z_plus; change (inject_Z 1) with 1%Q];
      split; lra.
  - apply Qlt_alt in Hcmp. split; lra.
  - apply Qgt_alt in Hcmp. rewrite inject_Z_plus. change (inject_Z 1) with 1%Q.
    split; lra.
Qed.

Lemma round5_close (x y : Q) :
  round5 x = round5 y → (Qabs (x - y) <= 1 # 100000)%Q.
Proof.
  unfold round5. intros Heq.
  destruct (round_half_even_close (x * 100000)) as [Hx1 Hx2].
  destruct (round_half_even_close (y * 100000)) as [Hy1 Hy2].
  rewrite Heq in Hx1, Hx2.
  apply Qabs_Qle_condition. split; lra.
Qed.

(** Two coordinates that share a stop key, and so one stop, are within one
    hundred-thousandth of a degree of each other in latitude and in
    longitude. *)
Theorem stop_key_tolerance (c1 c2 : Point) :
  stop_key c1 = stop_key c2 →
  (Qabs (snd c1 - snd c2) <= 1 # 100000)%Q ∧ (Qabs (fst c1 - fst c2) <= 1 # 100000)%Q.
Proof.
  unfold stop_key. intros [= Hlat Hlon]. split; by apply round5_close.
Qed.

Lemma stop_key_tolerance_witness :
  stop_key (0, 1 # 1000000)%Q = stop_key (0, 0)%Q
  ∧ (Qabs ((1 # 1000000) - 0) <= 1 # 100000)%Q.
Proof.
  split; [reflexivity|].
  exact (proj1 (stop_key_tolerance (0, 1 # 1000000)%Q (0, 0)%Q eq_refl)).
Defined.
